(** * deep-copy: the generator of DeepCopy methods, embedded in Rocq

    A shallow embedding of [main.go].  The generator reads the type graph of
    a Go package through [go/types], walks every requested type and prints
    the text of a [DeepCopy] method for it.

    - [go/types] values are an inductive [type]; a named type is a
      declaration number, and everything the library answers about a
      declaration (its object, its underlying type, its methods, the text of
      [String()]) is read from a [TypeModel];
    - an [io.Writer] is the text written to it, appended in order;
    - the shared [imports] table is a [gmap string string] threaded through
      the calls that mutate it;
    - the walk can run forever on the code (a self-referential type that is
      not being generated), so [walkType] takes fuel and answers [None] when
      it runs out. *)

From Stdlib Require Import Ascii String.
From stdpp Require Import base strings gmap list pretty.
Local Open Scope string_scope.
#[local] Set Warnings "-register-all".

(** ** Text helpers: the pieces of [strings] and [fmt] the program uses *)

Definition nl : string := String (Ascii.ascii_of_nat 10) EmptyString.
Definition tab : string := String (Ascii.ascii_of_nat 9) EmptyString.
Definition dquote : string := String (Ascii.ascii_of_nat 34) EmptyString.

(** [sel[strings.Index(sel, ".")+1:]]: the text after the first dot, the
    whole text when it has none ([Index] is then -1). *)
Fixpoint dropToDot (s : string) : option string :=
  match s with
  | EmptyString => None
  | String c rest => if Ascii.eqb c "."%char then Some rest else dropToDot rest
  end.

Definition afterFirstDot (sel : string) : string :=
  match dropToDot sel with
  | Some rest => rest
  | None => sel
  end.

(** [strings.Map] over the bytes of an ASCII text. *)
Fixpoint mapChars (f : Ascii.ascii -> Ascii.ascii) (s : string) : string :=
  match s with
  | EmptyString => EmptyString
  | String c rest => String (f c) (mapChars f rest)
  end.

(** [strings.ReplaceAll(s, old, new)] for one-character [old] and [new],
    the only use the program makes of it with a replacement. *)
Definition replaceChar (old new : Ascii.ascii) (s : string) : string :=
  mapChars (fun c => if Ascii.eqb c old then new else c) s.

(** [strings.ReplaceAll(s, old, "")] for a one-character [old]. *)
Fixpoint removeChar (old : Ascii.ascii) (s : string) : string :=
  match s with
  | EmptyString => EmptyString
  | String c rest =>
      if Ascii.eqb c old then removeChar old rest else String c (removeChar old rest)
  end.

(** [strings.HasSuffix]. *)
Definition hasSuffix (s suffix : string) : bool :=
  let n := String.length s in
  let k := String.length suffix in
  (k <=? n)%nat && String.eqb (String.substring (n - k) k s) suffix.

(** [b.Len() > 0] on a buffer that holds [s]. *)
Definition nonEmpty (s : string) : bool :=
  match s with
  | EmptyString => false
  | String _ _ => true
  end.

(** ** The type model: what [go/types] gives the program *)

Inductive ChanDir : Type := SendRecv | SendOnly | RecvOnly.

(** A struct field: [Name()], [Exported()], [Type()]. *)
Record Var (T : Type) : Type := mkVar {
  var_name : string;
  var_exported : bool;
  var_type : T
}.
Arguments mkVar {T} _ _ _.
Arguments var_name {T} _.
Arguments var_exported {T} _.
Arguments var_type {T} _.

(** A method: [Name()] and its signature.  [fn_recv] is the type of
    [Recv()]; [None] stands for the enclosing interface literal, which is
    what [Recv()] answers for a method written in an unnamed interface. *)
Record Func (T : Type) : Type := mkFunc {
  fn_name : string;
  fn_recv : option T;
  fn_params : list T;
  fn_results : list T
}.
Arguments mkFunc {T} _ _ _ _.
Arguments fn_name {T} _.
Arguments fn_recv {T} _.
Arguments fn_params {T} _.
Arguments fn_results {T} _.

(** [types.Type].  [Named d] is the named type of declaration [d]: two
    named types are the same type exactly when they are the same
    declaration.  Type parameters, instantiated generic types, struct tags
    and embedded fields are left out of the model. *)
Inductive type : Type :=
| Basic (name : string)
| Named (decl : nat)
| Pointer (elem : type)
| Slice (elem : type)
| Array (len : N) (elem : type)
| Chan (dir : ChanDir) (elem : type)
| Map (key elem : type)
| Struct (fields : list (Var type))
| Signature (params results : list type)
| Interface (methods : list (Func type)).

(** [types.Package]: [Name()] and [Path()]. *)
Record TypesPackage : Type := mkPkg {
  pkg_name : string;
  pkg_path : string
}.

(** [types.TypeName]: [Pkg()] (nil for a universe type such as [error]) and
    [Name()]. *)
Record TypeName : Type := mkTypeName {
  obj_pkg : option TypesPackage;
  obj_name : string
}.

(** What the library answers about declarations and types. *)
Record TypeModel : Type := mkTypeModel {
  tm_obj : nat -> TypeName;               (* Named.Obj() *)
  tm_underlying : nat -> type;            (* Named.Underlying() *)
  tm_methods : nat -> list (Func type);   (* Named.NumMethods(), Named.Method(i) *)
  tm_string : type -> string              (* Type.String() *)
}.

Definition ChanDir_eqb (a b : ChanDir) : bool :=
  match a, b with
  | SendRecv, SendRecv | SendOnly, SendOnly | RecvOnly, RecvOnly => true
  | _, _ => false
  end.

(** [types.Identical]: structural identity, a named type being identical
    to itself only.  Signatures compare parameter and result types (not the
    receiver), interfaces compare their method lists, which the library
    keeps sorted. *)
Fixpoint Identical (x y : type) {struct x} : bool :=
  let fix identicalList (xs ys : list type) {struct xs} : bool :=
    match xs, ys with
    | [], [] => true
    | a :: xs', b :: ys' => Identical a b && identicalList xs' ys'
    | _, _ => false
    end in
  match x, y with
  | Basic a, Basic b => String.eqb a b
  | Named a, Named b => Nat.eqb a b
  | Pointer a, Pointer b => Identical a b
  | Slice a, Slice b => Identical a b
  | Array n a, Array k b => N.eqb n k && Identical a b
  | Chan d a, Chan e b => ChanDir_eqb d e && Identical a b
  | Map k a, Map l b => Identical k l && Identical a b
  | Struct fs, Struct gs =>
      (fix identicalFields (fs gs : list (Var type)) {struct fs} : bool :=
         match fs, gs with
         | [], [] => true
         | mkVar n _ t :: fs', mkVar k _ u :: gs' =>
             String.eqb n k && Identical t u && identicalFields fs' gs'
         | _, _ => false
         end) fs gs
  | Signature ps rs, Signature qs ss => identicalList ps qs && identicalList rs ss
  | Interface ms, Interface ns =>
      (fix identicalMethods (ms ns : list (Func type)) {struct ms} : bool :=
         match ms, ns with
         | [], [] => true
         | mkFunc n _ ps rs :: ms', mkFunc k _ qs ss :: ns' =>
             String.eqb n k && identicalList ps qs && identicalList rs ss
             && identicalMethods ms' ns'
         | _, _ => false
         end) ms ns
  | _, _ => false
  end.

(** [m.Underlying()]. *)
Definition Underlying (tm : TypeModel) (m : type) : type :=
  match m with
  | Named d => tm_underlying tm d
  | _ => m
  end.

(** ** The three interfaces of the program *)

(** [typ.(pointer)]: the interface asks for an [Elem()] method only, and
    pointers, slices, arrays, channels and maps all have one. *)
Definition asPointer (typ : type) : option type :=
  match typ with
  | Pointer e | Slice e | Array _ e | Chan _ e | Map _ e => Some e
  | _ => None
  end.

(** [typ.(object)]: a type with an [Obj()] method, that is a named type. *)
Definition asObject (typ : type) : option nat :=
  match typ with
  | Named d => Some d
  | _ => None
  end.

(** [typ.(methoder)]: a type with [Method(i)] and [NumMethods()], that is a
    named type or an interface. *)
Definition isMethoder (typ : type) : bool :=
  match typ with
  | Named _ | Interface _ => true
  | _ => false
  end.

(** The methods [v.Method(0)], ..., [v.Method(v.NumMethods()-1)]. *)
Definition methodsOf (tm : TypeModel) (v : type) : list (Func type) :=
  match v with
  | Named d => tm_methods tm d
  | Interface ms => ms
  | _ => []
  end.

(** [sig.Recv().Type()] of a method found on [v]. *)
Definition recvType (v : type) (m : Func type) : type :=
  match fn_recv m with
  | Some t => t
  | None => v
  end.

Definition reducePointer (typ : type) : type * bool :=
  match asPointer typ with
  | Some e => (e, true)
  | None => (typ, false)
  end.

Definition objFromType (typ : type) : option nat :=
  asObject (fst (reducePointer typ)).

(** ** Capability detection *)

(** The loop of [hasDeepCopy] over the methods of [v]. *)
Fixpoint scanMethods (v : type) (ms : list (Func type)) : bool * bool :=
  match ms with
  | [] => (false, false)
  | m :: rest =>
      if negb (String.eqb (fn_name m) "DeepCopy") then scanMethods v rest
      else if negb (length (fn_params m) =? 0)%nat || negb (length (fn_results m) =? 1)%nat
      then scanMethods v rest
      else
        match fn_results m with
        | ret :: _ =>
            let '(retType, retPointer) := reducePointer ret in
            let '(sigType, _) := reducePointer (recvType v m) in
            if negb (Identical retType sigType) then (false, false)
            else (true, retPointer)
        | [] => scanMethods v rest
        end
  end.

Definition hasDeepCopy (tm : TypeModel) (v : type) (generating : list type)
    (pointer : bool) : bool * bool :=
  if existsb (Identical v) generating then (true, pointer)
  else scanMethods v (methodsOf tm v).

(** The three texts [reuseDeepCopy] can print. *)
Definition callDirect (source sink : string) : string :=
  sink +:+ " = " +:+ source +:+ ".DeepCopy()" +:+ nl.

Definition callWrap (source sink : string) : string :=
  "retV := " +:+ source +:+ ".DeepCopy()" +:+ nl +:+
  tab +:+ sink +:+ " = &retV" +:+ nl.

Definition callDeref (source sink : string) : string :=
  "{" +:+ nl +:+
  tab +:+ "retV := " +:+ source +:+ ".DeepCopy()" +:+ nl +:+
  tab +:+ sink +:+ " = *retV" +:+ nl +:+
  "}" +:+ nl.

(** [reuseDeepCopy]: the text written to [w] and the result. *)
Definition reuseDeepCopy (tm : TypeModel) (source sink : string) (v : type)
    (pointer : bool) (generating : list type) : string * bool :=
  let '(hasMethod, isPointer) := hasDeepCopy tm v generating pointer in
  if hasMethod then
    (if Bool.eqb pointer isPointer then callDirect source sink
     else if pointer then callWrap source sink
     else callDeref source sink, true)
  else ("", false).

(** ** Element type names and the import table *)

(** [kind[0] != '*'].  The program reads [kind[0]] only for a pointer type,
    whose name is never empty: it ends with a declared identifier or is the
    library's text of the pointer type, which starts with a star. *)
Definition notStarred (kind : string) : bool :=
  match kind with
  | String c _ => negb (Ascii.eqb c "*"%char)
  | EmptyString => true
  end.

Definition isPointerType (t : type) : bool :=
  match t with
  | Pointer _ => true
  | _ => false
  end.

(** The alias chosen for a package that is not the current one. *)
Definition aliasFor (imports : gmap string string) (pkg : TypesPackage) : string :=
  match imports !! pkg_name pkg with
  | Some path =>
      if negb (String.eqb path (pkg_path pkg))
      then replaceChar "/"%char "_"%char (pkg_path pkg)
      else pkg_name pkg
  | None => pkg_name pkg
  end.

Definition getElemType (tm : TypeModel) (t : type) (x : string)
    (imports : gmap string string) (rawkind : bool) : string * gmap string string :=
  let '(kind, imports) :=
    match objFromType t with
    | Some obj =>
        let o := tm_obj tm obj in
        match obj_pkg o with
        | Some pkg =>
            if negb (String.eqb (pkg_name pkg) x) then
              let name := aliasFor imports pkg in
              (name +:+ "." +:+ obj_name o, <[name := pkg_path pkg]> imports)
            else (obj_name o, imports)
        | None => (obj_name o, imports)
        end
    | None => (tm_string tm t, imports)
    end in
  let pointer := isPointerType t in
  (if negb rawkind && pointer && notStarred kind then "*" +:+ kind else kind, imports).

Definition selToIdent (sel : string) : string :=
  mapChars (fun r => if Ascii.eqb r "["%char then "_"%char
                     else if Ascii.eqb r "."%char then "_"%char else r)
           (removeChar "]"%char sel).

(** ** The walk *)

(** What a call of [walkType] leaves behind: the text it wrote to [w] and
    the import table. *)
Definition walked : Type := string * gmap string string.

(** The guard every container case opens with. *)
Definition ifNotNil (source : string) : string :=
  "if " +:+ source +:+ " != nil {" +:+ nl.

Definition closeBrace : string := "}" +:+ nl.

(** The pieces of text the cases of [walkType] print. *)

(** Slice: the allocation under the guard, and the bulk copy. *)
Definition sliceAlloc (source sink kind : string) : string :=
  ifNotNil source +:+
  tab +:+ sink +:+ " = make([]" +:+ kind +:+ ", len(" +:+ source +:+ "))" +:+ nl +:+
  "copy(" +:+ sink +:+ ", " +:+ source +:+ ")" +:+ nl.

(** Slice: the loop around the text [b] of the element walk, printed only
    when [b.Len() > 0]. *)
Definition sliceLoop (source b : string) : string :=
  if nonEmpty b
  then "    for i := range " +:+ source +:+ " {" +:+ nl +:+ b +:+ closeBrace
  else "".

(** Pointer: the allocation of the pointee and its shallow copy. *)
Definition pointerAlloc (source sink kind : string) : string :=
  sink +:+ " = new(" +:+ kind +:+ ")" +:+ nl +:+
  tab +:+ "*" +:+ sink +:+ " = *" +:+ source +:+ nl.

(** Channel: a new channel of the same capacity. *)
Definition chanAlloc (source sink kind : string) : string :=
  ifNotNil source +:+
  tab +:+ sink +:+ " = make(chan " +:+ kind +:+ ", cap(" +:+ source +:+ "))" +:+ nl +:+
  closeBrace.

(** Map: the allocation under the guard and the head of the loop. *)
Definition mapAlloc (source sink kkind vkind : string) : string :=
  ifNotNil source +:+
  tab +:+ sink +:+ " = make(map[" +:+ kkind +:+ "]" +:+ vkind +:+
    ", len(" +:+ source +:+ "))" +:+ nl +:+
  tab +:+ "for k, v := range " +:+ source +:+ " {" +:+ nl.

(** Map: the declaration of a temporary. *)
Definition varDecl (name kind : string) : string :=
  "var " +:+ name +:+ " " +:+ kind +:+ nl.

(** Map: the store of the entry and the two closing braces. *)
Definition mapStore (sink ksink vsink : string) : string :=
  sink +:+ "[" +:+ ksink +:+ "] = " +:+ vsink +:+ closeBrace +:+ closeBrace.

(** The loop of the struct case over [v.Field(0)], ..., the recursive call
    being [walk]. *)
Fixpoint walkFields
    (walk : string -> string -> type -> gmap string string -> option walked)
    (needExported : bool) (source sink : string) (skips : gset string)
    (fields : list (Var type)) (imports : gmap string string) : option walked :=
  match fields with
  | [] => Some ("", imports)
  | field :: rest =>
      if needExported && negb (var_exported field)
      then walkFields walk needExported source sink skips rest imports
      else
        let fname := var_name field in
        let sel := afterFirstDot (sink +:+ "." +:+ fname) in
        if bool_decide (sel ∈ skips)
        then walkFields walk needExported source sink skips rest imports
        else
          '(out, imports) ← walk (source +:+ "." +:+ fname) (sink +:+ "." +:+ fname)
                                 (var_type field) imports;
          '(more, imports) ← walkFields walk needExported source sink skips rest imports;
          Some (out +:+ more, imports)
  end.

(** The selector a slice ([i]) or a map ([k]) is looked up under in the
    skip set. *)
Definition elemSelector (sink : string) (initial : bool) (index : string) : string :=
  afterFirstDot (if initial then index else sink +:+ index).

Definition needsExported (tm : TypeModel) (x : string) (m : type) : bool :=
  match m with
  | Named d =>
      match obj_pkg (tm_obj tm d) with
      | Some pkg => negb (String.eqb (pkg_name pkg) x)
      | None => false
      end
  | _ => false
  end.

Fixpoint walkType (tm : TypeModel) (fuel : nat) (source sink x : string) (m : type)
    (imports : gmap string string) (skips : gset string) (generating : list type)
    (initial : bool) {struct fuel} : option walked :=
  match fuel with
  | O => None
  | S fuel =>
      let needExported := needsExported tm x m in
      let '(call, reused) :=
        if isMethoder m && negb initial
        then reuseDeepCopy tm source sink m false generating
        else ("", false) in
      if reused then Some (call, imports)
      else
        match Underlying tm m with
        | Struct fields =>
            walkFields
              (fun so si t imp => walkType tm fuel so si x t imp skips generating false)
              needExported source sink skips fields imports
        | Slice elem =>
            let '(kind, imports) := getElemType tm elem x imports false in
            let skipSlice := bool_decide (elemSelector sink initial "[i]" ∈ skips) in
            '(b, imports) ←
              (if skipSlice then Some ("", imports)
               else walkType tm fuel (source +:+ "[i]") (sink +:+ "[i]") x elem
                             imports skips generating false);
            Some (sliceAlloc source sink kind +:+ sliceLoop source b +:+ closeBrace, imports)
        | Pointer elem =>
            let '(call, reused) :=
              if isMethoder elem && negb initial
              then reuseDeepCopy tm source sink elem true generating
              else ("", false) in
            if reused then Some (ifNotNil source +:+ call +:+ closeBrace, imports)
            else
              let '(kind, imports) := getElemType tm elem x imports true in
              '(out, imports) ← walkType tm fuel source sink x elem imports skips
                                         generating false;
              Some (ifNotNil source +:+ pointerAlloc source sink kind +:+ out +:+ closeBrace,
                    imports)
        | Chan _ elem =>
            let '(kind, imports) := getElemType tm elem x imports false in
            Some (chanAlloc source sink kind, imports)
        | Map key elem =>
            let '(kkind, imports) := getElemType tm key x imports false in
            let '(vkind, imports) := getElemType tm elem x imports false in
            let '(skipKey, skipValue) :=
              if bool_decide (elemSelector sink initial "[k]" ∈ skips)
              then (true, true) else (false, false) in
            let copyKSink := selToIdent sink +:+ "_k" in
            '(kb, imports) ←
              (if skipKey then Some ("", imports)
               else walkType tm fuel "k" copyKSink x key imports skips generating false);
            let '(ksink, kout) :=
              if nonEmpty kb then (copyKSink, varDecl copyKSink kkind +:+ kb)
              else ("k", "") in
            let copyVSink := selToIdent sink +:+ "_v" in
            '(vb, imports) ←
              (if skipValue then Some ("", imports)
               else walkType tm fuel "v" copyVSink x elem imports skips generating false);
            let '(vsink, vout) :=
              if nonEmpty vb then (copyVSink, varDecl copyVSink vkind +:+ vb)
              else ("v", "") in
            Some (mapAlloc source sink kkind vkind +:+ kout +:+ vout +:+
                  mapStore sink ksink vsink, imports)
        | _ => Some ("", imports)
        end
  end.

(** ** Generating a method and the file *)

Inductive result (A : Type) : Type :=
| Ok (a : A)
| Err (msg : string).
Arguments Ok {A} _.
Arguments Err {A} _.

(** [packages.Package]: [Name] and the types of the objects of
    [TypesInfo.Defs] ([None] for a nil object), in the order the range over
    that map visits them. *)
Record Package : Type := mkPackage {
  p_Name : string;
  p_Defs : list (option type)
}.

(** [%q], that is [strconv.Quote].  A double quote and a backslash get a
    backslash before them; a printable ASCII character is written as it is;
    the control characters are written [\a], [\b], [\f], [\n], [\r], [\t],
    [\v] or, the others and DEL, [\x] and two hexadecimal digits.  A byte
    above 127 is kept: it is part of a character of several bytes, which
    [strconv.Quote] writes as it is when the character is printable, as the
    letters of identifiers and of import paths are.  The properties below
    that quote a text of the command line take it in ASCII. *)
Definition backslash : string := String (Ascii.ascii_of_nat 92) EmptyString.

Definition lowerhex (n : nat) : string := String.substring n 1 "0123456789abcdef".

Definition quoteChar (c : Ascii.ascii) : string :=
  let n := Ascii.nat_of_ascii c in
  if (n =? 34)%nat || (n =? 92)%nat then backslash +:+ String c EmptyString
  else if (32 <=? n)%nat && (n <? 127)%nat then String c EmptyString
  else if (n =? 7)%nat then backslash +:+ "a"
  else if (n =? 8)%nat then backslash +:+ "b"
  else if (n =? 12)%nat then backslash +:+ "f"
  else if (n =? 10)%nat then backslash +:+ "n"
  else if (n =? 13)%nat then backslash +:+ "r"
  else if (n =? 9)%nat then backslash +:+ "t"
  else if (n =? 11)%nat then backslash +:+ "v"
  else if (n <? 32)%nat || (n =? 127)%nat
  then backslash +:+ "x" +:+ lowerhex (n / 16) +:+ lowerhex (n mod 16)
  else String c EmptyString.

Fixpoint quoteChars (s : string) : string :=
  match s with
  | EmptyString => EmptyString
  | String c rest => quoteChar c +:+ quoteChars rest
  end.

Definition quoted (s : string) : string := dquote +:+ quoteChars s +:+ dquote.

(** Every byte of [s] is an ASCII character. *)
Fixpoint isASCII (s : string) : bool :=
  match s with
  | EmptyString => true
  | String c rest => (Ascii.nat_of_ascii c <? 128)%nat && isASCII rest
  end.

Definition methodHeader (pointer : bool) (kind source : string) : string :=
  let ptr := if pointer then "*" else "" in
  "// DeepCopy generates a deep copy of " +:+ ptr +:+ kind +:+ nl +:+
  "func (o " +:+ ptr +:+ kind +:+ ") DeepCopy() " +:+ ptr +:+ kind +:+ " {" +:+ nl +:+
  tab +:+ "var cp " +:+ kind +:+ " = " +:+ ptr +:+ source +:+ nl.

Definition methodFooter (pointer : bool) : string :=
  if pointer then "return &cp" +:+ nl +:+ "}" else "return cp" +:+ nl +:+ "}".

(** [generateFunc] never fails on the code; [None] is a walk out of fuel. *)
Definition generateFunc (tm : TypeModel) (fuel : nat) (p : Package) (obj : nat)
    (imports : gmap string string) (skips : gset string) (pointer : bool)
    (generating : list type) : option walked :=
  let kind := obj_name (tm_obj tm obj) in
  let source := "o" in
  '(body, imports) ← walkType tm fuel source "cp" (p_Name p) (Named obj) imports skips
                              generating true;
  Some (methodHeader pointer kind source +:+ body +:+ methodFooter pointer, imports).

(** One line of the import block. *)
Definition importLine (entry : string * string) : string :=
  let '(name, path) := entry in
  if hasSuffix path name then quoted path +:+ nl
  else name +:+ " " +:+ quoted path +:+ nl.

(** The text [generateFile] assembles before it formats it.  [args] is
    [os.Args] and [entries] the import table in the order the range over it
    visits it. *)
Definition assemble (args : list string) (p : Package) (imports : gmap string string)
    (entries : list (string * string)) (fn : list string) : string :=
  "// generated by " +:+ String.concat " " args +:+ "; DO NOT EDIT." +:+ nl +:+ nl +:+
  "package " +:+ p_Name p +:+ nl +:+ nl +:+
  (if (0 <? size imports)%nat
   then "import (" +:+ nl +:+ String.concat "" (importLine <$> entries) +:+ ")" +:+ nl
   else "") +:+
  String.concat "" ((fun f => f +:+ nl +:+ nl) <$> fn).

(** The text of the error of [generateFile]. *)
Definition formatError (err text : string) : string :=
  "error formatting source: " +:+ err +:+ nl +:+ "source:" +:+ nl +:+ text.

(** ** The world outside: arguments, loader, formatter, file system *)

Inductive File : Type :=
| Stdout
| OsFile (serial : nat) (name : string).

Record World : Type := mkWorld {
  os_Args : list string;
  go_types : TypeModel;
  packages_Load : string -> result (list Package);
  (* format.Source: the formatted text, or the text of the parse error *)
  format_Source : string -> result string;
  (* the order of a range over the import table *)
  range_imports : gmap string string -> list (string * string);
  (* whether os.OpenFile, Truncate and Write succeed *)
  os_OpenFile : string -> bool;
  file_Truncate : File -> bool;
  file_Write : File -> string -> bool
}.

Definition generateFile (w : World) (p : Package) (imports : gmap string string)
    (fn : list string) : result string :=
  let text := assemble (os_Args w) p imports (range_imports w imports) fn in
  match format_Source w text with
  | Ok b => Ok b
  | Err err => Err (formatError err text)
  end.

Definition exprFilter (tm : TypeModel) (t : type) (sel x : string) : option nat :=
  match objFromType t with
  | None => None
  | Some m =>
      let obj := tm_obj tm m in
      match obj_pkg obj with
      | None => None
      | Some pkg =>
          if negb (String.eqb x (pkg_name pkg)) || negb (String.eqb sel (obj_name obj))
          then None else Some m
      end
  end.

(** The loop of [locateType] over [p.TypesInfo.Defs]. *)
Fixpoint locateIn (tm : TypeModel) (x sel : string) (defs : list (option type)) : result nat :=
  match defs with
  | [] => Err "type not found"
  | None :: rest => locateIn tm x sel rest
  | Some t :: rest =>
      match exprFilter tm t sel x with
      | Some m => Ok m
      | None => locateIn tm x sel rest
      end
  end.

Definition locateType (tm : TypeModel) (x sel : string) (p : Package) : result nat :=
  locateIn tm x sel (p_Defs p).

(** The first loop of [run]: every requested type is located, or the first
    failure is reported. *)
Fixpoint locateAll (tm : TypeModel) (p : Package) (types : list string) : result (list nat) :=
  match types with
  | [] => Ok []
  | kind :: rest =>
      match locateType tm (p_Name p) kind p with
      | Err err =>
          Err ("locating type " +:+ quoted kind +:+ " in " +:+ quoted (p_Name p) +:+ ": " +:+ err)
      | Ok obj =>
          match locateAll tm p rest with
          | Err e => Err e
          | Ok objs => Ok (obj :: objs)
          end
      end
  end.

(** The second loop of [run], from index [i] on: one method per object, the
    import table shared by all. *)
Fixpoint generateAll (tm : TypeModel) (fuel : nat) (p : Package) (objs : list nat) (i : nat)
    (skips : list (gset string)) (pointer : bool) (generating : list type)
    (imports : gmap string string) : option (list string * gmap string string) :=
  match objs with
  | [] => Some ([], imports)
  | obj :: rest =>
      let s := default ∅ (skips !! i) in
      '(fn, imports) ← generateFunc tm fuel p obj imports s pointer generating;
      '(fns, imports) ← generateAll tm fuel p rest (S i) skips pointer generating imports;
      Some (fn :: fns, imports)
  end.

(** [run]: [None] when a walk runs out of fuel, else what the code returns. *)
Definition run (w : World) (fuel : nat) (path : string) (types : list string)
    (skips : list (gset string)) (pointer : bool) : option (result string) :=
  match packages_Load w path with
  | Err err => Some (Err ("loading package: " +:+ err))
  | Ok [] => Some (Err "no package found")
  | Ok (p :: _) =>
      match locateAll (go_types w) p types with
      | Err e => Some (Err e)
      | Ok objs =>
          '(fns, imports) ← generateAll (go_types w) fuel p objs 0 skips pointer
                                        (Named <$> objs) ∅;
          match generateFile w p imports fns with
          | Err err => Some (Err ("generating file content: " +:+ err))
          | Ok b => Some (Ok b)
          end
      end
  end.

(** ** The command line and [main] *)

(** What the run does to the world, in order.  [Returned] marks the return
    of [run]; it is how the trace shows what happened before generation and
    what after. *)
Inductive event : Type :=
| OpenFile (name : string) (opened : option File)
| Truncate (f : File) (ok : bool)
| Write (f : File) (b : string) (ok : bool)
| Close (f : File)
| Returned (r : result string)
| Exit (code : nat) (msg : string).

Record outputVal : Type := mkOutputVal {
  ov_file : option File;
  ov_name : string
}.

(** [outputVal.Set]: the new value, what it did, and whether it returned an
    error.  [serial] is the position of the flag on the command line; it tells the
    files of two [-o] flags apart. *)
Definition outputVal_Set (w : World) (f : outputVal) (v : string) (serial : nat)
    : outputVal * list event * option string :=
  if String.eqb v "-" || String.eqb v "" then
    (mkOutputVal None "stdout",
     match ov_file f with
     | Some file => [Close file]
     | None => []
     end, None)
  else if os_OpenFile w v then
    let file := OsFile serial v in
    (mkOutputVal (Some file) v, [OpenFile v (Some file)], None)
  else (f, [OpenFile v None], Some ("opening file: " +:+ v)).

(** [outputVal.Open]. *)
Definition outputVal_Open (w : World) (f : outputVal) : outputVal * list event * result File :=
  match ov_file f with
  | None => (mkOutputVal (Some Stdout) (ov_name f), [], Ok Stdout)
  | Some file =>
      if file_Truncate w file then (f, [Truncate file true], Ok file)
      else (f, [Truncate file false], Err "truncate failed")
  end.

(** [strings.Split(v, ",")]. *)
Fixpoint splitComma (cur : string) (v : string) : list string :=
  match v with
  | EmptyString => [cur]
  | String c rest =>
      if Ascii.eqb c ","%char then cur :: splitComma "" rest
      else splitComma (cur +:+ String c EmptyString) rest
  end.

(** [skipsVal.Set] appends the set of the comma-separated parts. *)
Definition skipsVal_Set (f : list (gset string)) (v : string) : list (gset string) :=
  (f ++ [list_to_set (splitComma "" v)])%list.

(** [typesVal.Set]. *)
Definition typesVal_Set (f : list string) (v : string) : list string := (f ++ [v])%list.

(** The command line as [flag.Parse] reads it: the values of each repeated
    flag in the order given, the boolean flag, and the other arguments. *)
Record CommandLine : Type := mkCommandLine {
  cl_pointer_receiver : bool;
  cl_type : list string;
  cl_skip : list string;
  cl_o : list string;
  cl_args : list string
}.

(** The error of [flag.Parse] for a value [v] of the flag [name] that [Set]
    rejects with [err]: [invalid value %q for flag -%s: %v]. *)
Definition invalidValue (v name err : string) : string :=
  "invalid value " +:+ quoted v +:+ " for flag -" +:+ name +:+ ": " +:+ err.

(** [flag.Parse] over the [-o] values: it stops at the first [Set] that
    fails, with the error it makes of the error of [Set]. *)
Fixpoint parseOutput (w : World) (f : outputVal) (serial : nat) (vs : list string)
    : outputVal * list event * option string :=
  match vs with
  | [] => (f, [], None)
  | v :: rest =>
      match outputVal_Set w f v serial with
      | (f', evs, Some err) => (f', evs, Some (invalidValue v "o" err))
      | (f', evs, None) =>
          let '(f'', evs', err) := parseOutput w f' (S serial) rest in
          (f'', (evs ++ evs')%list, err)
      end
  end.

(** [log.Fatalln]: the message and exit status 1. *)
Definition fatal (msg : string) : list event := [Exit 1 msg].

(** [main]: the trace of the run; [None] when a walk runs out of fuel.
    When [flag.Parse] fails it prints its error, then the usage, and exits
    with status 2: the message of that exit is the error. *)
Definition main (w : World) (fuel : nat) (cl : CommandLine) : option (list event) :=
  let typesF := foldl typesVal_Set [] (cl_type cl) in
  let skipsF := foldl skipsVal_Set [] (cl_skip cl) in
  match parseOutput w (mkOutputVal None "") 0 (cl_o cl) with
  | (_, evs, Some err) => Some (evs ++ [Exit 2 err])%list
  | (outputF, evs, None) =>
      if bool_decide (length typesF = 0) || String.eqb (default "" (typesF !! 0)) ""
      then Some (evs ++ fatal "no type given")%list
      else if negb (length (cl_args cl) =? 1)%nat
      then Some (evs ++ fatal "No package path given")%list
      else
        r ← run w fuel (default "" (cl_args cl !! 0)) typesF skipsF (cl_pointer_receiver cl);
        match r with
        | Err err =>
            Some (evs ++ [Returned r] ++ fatal ("Error generating deep copy method: " +:+ err))%list
        | Ok b =>
            match outputVal_Open w outputF with
            | (_, evs', Err err) =>
                Some (evs ++ [Returned r] ++ evs' ++
                      fatal ("Error initializing output file: " +:+ err))%list
            | (_, evs', Ok output) =>
                if file_Write w output b
                then Some (evs ++ [Returned r] ++ evs' ++ [Write output b true; Close output])%list
                else Some (evs ++ [Returned r] ++ evs' ++ [Write output b false] ++
                           fatal "Error writing result to file: write failed")%list
            end
        end
  end.

(** ** Notions the properties are stated with *)

(** The capability check of [walkType] fires on [m]: [m] has methods, the
    call is not the top-level one, and a capability is detected. *)
Definition reusedAt (tm : TypeModel) (m : type) (generating : list type)
    (initial : bool) : bool :=
  isMethoder m && negb initial && fst (hasDeepCopy tm m generating false).

(** The underlying types the switch of [walkType] has a case for. *)
Definition hasCase (under : type) : bool :=
  match under with
  | Struct _ | Slice _ | Pointer _ | Chan _ _ | Map _ _ => true
  | _ => false
  end.



(** The walk of a type at a position below the top is finite: the type
    graph, cut at every type a capability is detected for, is a finite
    tree.  [FiniteUnder] is the same for an underlying type, [FiniteFields]
    for the fields of a struct. *)
Inductive Finite (tm : TypeModel) (generating : list type) : type -> Prop :=
| fin_reused m :
    isMethoder m = true ->
    fst (hasDeepCopy tm m generating false) = true ->
    Finite tm generating m
| fin_dispatch m :
    FiniteUnder tm generating (Underlying tm m) ->
    Finite tm generating m
with FiniteUnder (tm : TypeModel) (generating : list type) : type -> Prop :=
| fu_struct fields :
    FiniteFields tm generating fields ->
    FiniteUnder tm generating (Struct fields)
| fu_slice elem :
    Finite tm generating elem ->
    FiniteUnder tm generating (Slice elem)
| fu_pointer elem :
    Finite tm generating elem ->
    FiniteUnder tm generating (Pointer elem)
| fu_map key elem :
    Finite tm generating key ->
    Finite tm generating elem ->
    FiniteUnder tm generating (Map key elem)
| fu_leaf under :
    match under with
    | Struct _ | Slice _ | Pointer _ | Map _ _ => False
    | _ => True
    end ->
    FiniteUnder tm generating under
with FiniteFields (tm : TypeModel) (generating : list type) : list (Var type) -> Prop :=
| ff_nil : FiniteFields tm generating []
| ff_cons field rest :
    Finite tm generating (var_type field) ->
    FiniteFields tm generating rest ->
    FiniteFields tm generating (field :: rest).

Scheme Finite_mut := Minimality for Finite Sort Prop
  with FiniteUnder_mut := Minimality for FiniteUnder Sort Prop
  with FiniteFields_mut := Minimality for FiniteFields Sort Prop.

Combined Scheme Finite_mutind from Finite_mut, FiniteUnder_mut, FiniteFields_mut.

(** Fuel [n] is enough to walk [m], whatever the expressions, the package,
    the import table and the skip set. *)
Definition walksOut (tm : TypeModel) (G : list type) (m : type) (initial : bool)
    (n : nat) : Prop :=
  forall source sink x imports skips,
    is_Some (walkType tm n source sink x m imports skips G initial).

(** The same for the loop over the fields of a struct. *)
Definition fieldsWalkOut (tm : TypeModel) (G : list type) (fields : list (Var type))
    (n : nat) : Prop :=
  forall needExported source sink x imports skips,
    is_Some (walkFields (fun so si t imp => walkType tm n so si x t imp skips G false)
                        needExported source sink skips fields imports).

(** In a hypothesis [H] that a walk with nested walks succeeded, take the
    first nested walk apart: it succeeded too, and by [IH] it succeeds with
    the larger fuel of the goal. *)
Ltac nested_walk IH H :=
  match type of H with
  | context [walkType ?tm ?f ?so ?si ?x ?m ?imp ?sk ?G ?ini] =>
      let E := fresh "E" in
      destruct (walkType tm f so si x m imp sk G ini) as [[? ?]|] eqn:E;
      [apply IH in E; rewrite E; cbn [mbind option_bind] in H |- * | discriminate H]
  end.

(** The events that touch the content of the output: truncation and
    write. *)
Definition touchesOutput (e : event) : bool :=
  match e with
  | Truncate _ _ | Write _ _ _ => true
  | _ => false
  end.

Definition isOpenFile (e : event) : bool :=
  match e with
  | OpenFile _ _ => true
  | _ => false
  end.

Definition isClose (e : event) : bool :=
  match e with
  | Close _ => true
  | _ => false
  end.

Definition isReturned (e : event) : bool :=
  match e with
  | Returned _ => true
  | _ => false
  end.

(** [suffix] ends the text [s]. *)
Definition endsWith (s suffix : string) : Prop := exists pre, s = pre +:+ suffix.

(** What [main] does once the command line is parsed, [outputF] being the
    value the [-o] flags left: it stops before generation; or generation
    fails and it stops; or generation succeeds, the destination is
    truncated when it is a file, then written, then closed, stopping at the
    first of these that fails. *)
Inductive afterParse (outputF : outputVal) : list event -> Prop :=
| ap_stopped code msg :
    afterParse outputF [Exit code msg]
| ap_generation_failed e msg :
    afterParse outputF [Returned (Err e); Exit 1 msg]
| ap_truncate_failed b f msg :
    ov_file outputF = Some f ->
    afterParse outputF [Returned (Ok b); Truncate f false; Exit 1 msg]
| ap_file_write_failed b f msg :
    ov_file outputF = Some f ->
    afterParse outputF [Returned (Ok b); Truncate f true; Write f b false; Exit 1 msg]
| ap_stdout_write_failed b msg :
    ov_file outputF = None ->
    afterParse outputF [Returned (Ok b); Write Stdout b false; Exit 1 msg]
| ap_file_written b f :
    ov_file outputF = Some f ->
    afterParse outputF [Returned (Ok b); Truncate f true; Write f b true; Close f]
| ap_stdout_written b :
    ov_file outputF = None ->
    afterParse outputF [Returned (Ok b); Write Stdout b true; Close Stdout].

(** The shape of a trace of [main]: what parsing the [-o] flags did, which
    is where every file is opened, followed by one of the runs of
    [afterParse]. *)
Definition lifecycle (w : World) (cl : CommandLine) (trace : list event) : Prop :=
  exists outputF evs err tail,
    parseOutput w (mkOutputVal None "") 0 (cl_o cl) = (outputF, evs, err)
    /\ trace = (evs ++ tail)%list
    /\ Forall (fun e => isOpenFile e = true \/ isClose e = true) evs
    /\ Forall (fun e => isOpenFile e = false) tail
    /\ afterParse outputF tail.

(** ** An example package

    The declarations the examples below are run on.  [printType] renders a
    type in the style of [Type.String()]: a named type with the path of its
    package. *)

Fixpoint printType (objs : nat -> TypeName) (t : type) {struct t} : string :=
  let fix printList (ts : list type) {struct ts} : string :=
    match ts with
    | [] => ""
    | [a] => printType objs a
    | a :: (_ :: _) as rest => printType objs a +:+ ", " +:+ printList rest
    end in
  let printResults (rs : list type) : string :=
    match rs with
    | [] => ""
    | [r] => " " +:+ printList rs
    | _ => " (" +:+ printList rs +:+ ")"
    end in
  match t with
  | Basic n => n
  | Named d =>
      match obj_pkg (objs d) with
      | Some pkg => pkg_path pkg +:+ "." +:+ obj_name (objs d)
      | None => obj_name (objs d)
      end
  | Pointer e => "*" +:+ printType objs e
  | Slice e => "[]" +:+ printType objs e
  | Array n e => "[" +:+ pretty n +:+ "]" +:+ printType objs e
  | Chan d e =>
      match d with
      | SendRecv => "chan "
      | SendOnly => "chan<- "
      | RecvOnly => "<-chan "
      end +:+ printType objs e
  | Map k e => "map[" +:+ printType objs k +:+ "]" +:+ printType objs e
  | Struct fs =>
      "struct{" +:+
      (fix printFields (fs : list (Var type)) {struct fs} : string :=
         match fs with
         | [] => ""
         | [mkVar n _ u] => n +:+ " " +:+ printType objs u
         | mkVar n _ u :: (_ :: _) as rest =>
             n +:+ " " +:+ printType objs u +:+ "; " +:+ printFields rest
         end) fs +:+ "}"
  | Signature ps rs => "func(" +:+ printList ps +:+ ")" +:+ printResults rs
  | Interface ms =>
      "interface{" +:+
      (fix printMethods (ms : list (Func type)) {struct ms} : string :=
         match ms with
         | [] => ""
         | [mkFunc n _ ps rs] => n +:+ "(" +:+ printList ps +:+ ")" +:+ printResults rs
         | mkFunc n _ ps rs :: (_ :: _) as rest =>
             n +:+ "(" +:+ printList ps +:+ ")" +:+ printResults rs +:+ "; " +:+
             printMethods rest
         end) ms +:+ "}"
  end.

Record Decl : Type := mkDecl {
  d_obj : TypeName;
  d_underlying : type;
  d_methods : list (Func type)
}.

(** The type model of a list of declarations, [Named d] being the [d]-th. *)
Definition modelOf (decls : list Decl) : TypeModel :=
  let get d := default (mkDecl (mkTypeName None "invalid type") (Basic "invalid type") [])
                       (decls !! d) in
  mkTypeModel (fun d => d_obj (get d)) (fun d => d_underlying (get d))
              (fun d => d_methods (get d)) (printType (fun d => d_obj (get d))).

Definition here : option TypesPackage := Some (mkPkg "p" "example.com/p").
Definition extTime : option TypesPackage := Some (mkPkg "time" "example.com/time").
Definition stdTime : option TypesPackage := Some (mkPkg "time" "time").

Definition int : type := Basic "int".

(** A method [DeepCopy] with receiver [recv], no parameter and result [ret]. *)
Definition deepCopyMethod (recv ret : type) : Func type :=
  mkFunc "DeepCopy" (Some recv) [] [ret].

(**
<<
package p

type A struct{ Next *B }                       // 0
type B struct{ Prev *A }                       // 1
type Tree struct{ Children []Tree }            // 2
type Node struct{ Next *Peer; Kids []Tree }    // 3
type Peer struct{ Prev *Node }                 // 4
type T struct{}                                // 5
func (T) DeepCopy() []T
type List []int                                // 6
func (l List) DeepCopy() List
type Arr [3]*int                               // 7
func (a Arr) DeepCopy() Arr
type Holder struct{ M map[*int]*int }          // 8
// package time (example.com/time): type Stamp struct{ Sec int }   // 9
// package time (time):             type Time struct{ wall int }   // 10
type Event struct{ At []exttime.Stamp; Seen []time.Time }          // 11
type V struct{ N int }                         // 12
func (v V) DeepCopy() V
type P struct{ N int }                         // 13
func (p *P) DeepCopy() *P
type Uses struct{ A V; B *V; C P; D *P }       // 14
type Wrapper struct{ L List; G Arr; F T }      // 15
type Plain struct{ G [3]*int; F func(int) int; I interface{}; N int } // 16
>> *)
Definition declarations : list Decl := [
  mkDecl (mkTypeName here "A") (Struct [mkVar "Next" true (Pointer (Named 1))]) [];
  mkDecl (mkTypeName here "B") (Struct [mkVar "Prev" true (Pointer (Named 0))]) [];
  mkDecl (mkTypeName here "Tree") (Struct [mkVar "Children" true (Slice (Named 2))]) [];
  mkDecl (mkTypeName here "Node")
         (Struct [mkVar "Next" true (Pointer (Named 4)); mkVar "Kids" true (Slice (Named 2))]) [];
  mkDecl (mkTypeName here "Peer") (Struct [mkVar "Prev" true (Pointer (Named 3))]) [];
  mkDecl (mkTypeName here "T") (Struct []) [deepCopyMethod (Named 5) (Slice (Named 5))];
  mkDecl (mkTypeName here "List") (Slice int) [deepCopyMethod (Named 6) (Named 6)];
  mkDecl (mkTypeName here "Arr") (Array 3 (Pointer int)) [deepCopyMethod (Named 7) (Named 7)];
  mkDecl (mkTypeName here "Holder")
         (Struct [mkVar "M" true (Map (Pointer int) (Pointer int))]) [];
  mkDecl (mkTypeName extTime "Stamp") (Struct [mkVar "Sec" true int]) [];
  mkDecl (mkTypeName stdTime "Time") (Struct [mkVar "wall" false int]) [];
  mkDecl (mkTypeName here "Event")
         (Struct [mkVar "At" true (Slice (Named 9)); mkVar "Seen" true (Slice (Named 10))]) [];
  mkDecl (mkTypeName here "V") (Struct [mkVar "N" true int])
         [deepCopyMethod (Named 12) (Named 12)];
  mkDecl (mkTypeName here "P") (Struct [mkVar "N" true int])
         [deepCopyMethod (Pointer (Named 13)) (Pointer (Named 13))];
  mkDecl (mkTypeName here "Uses")
         (Struct [mkVar "A" true (Named 12); mkVar "B" true (Pointer (Named 12));
                  mkVar "C" true (Named 13); mkVar "D" true (Pointer (Named 13))]) [];
  mkDecl (mkTypeName here "Wrapper")
         (Struct [mkVar "L" true (Named 6); mkVar "G" true (Named 7);
                  mkVar "F" true (Named 5)]) [];
  mkDecl (mkTypeName here "Plain")
         (Struct [mkVar "G" true (Array 3 (Pointer int));
                  mkVar "F" true (Signature [int] [int]);
                  mkVar "I" true (Interface []); mkVar "N" true int]) []
].

Definition exampleTypes : TypeModel := modelOf declarations.

(** The package [p]: the objects it defines are its type names (and one
    nil object). *)
Definition examplePackage : Package :=
  mkPackage "p" [Some (Named 0); Some (Named 1); None; Some (Named 2); Some (Named 3);
                 Some (Named 4); Some (Named 5); Some (Named 6); Some (Named 7);
                 Some (Named 8); Some (Named 11); Some (Named 12); Some (Named 13);
                 Some (Named 14); Some (Named 15); Some (Named 16)].

(** A world in which every file operation succeeds, the loader knows the
    package [./p] and the formatter accepts a text or not as [parses] says. *)
Definition exampleWorld (parses : bool) : World :=
  mkWorld ["deep-copy"] exampleTypes
          (fun path => if String.eqb path "./p" then Ok [examplePackage]
                       else Err ("cannot find package " +:+ path))
          (fun text => if parses then Ok text else Err "1:1: expected declaration")
          map_to_list
          (fun _ => true) (fun _ => true) (fun _ _ => true).

(** ** Further notions *)

(** The character [c] occurs in [s]. *)

(** [typesVal.String]. *)
Fixpoint hasChar (c : Ascii.ascii) (s : string) : bool :=
  match s with
  | EmptyString => false
  | String d rest => Ascii.eqb d c || hasChar c rest
  end.

(** A value of [-o] that selects standard output. *)
(** The values of [-o] that stand for standard output. *)
Definition isDash (v : string) : bool := String.eqb v "-" || String.eqb v "".

(** The fields of a struct the loop of the struct case walks into: those
    it does not pass over for being unexported in a foreign type, nor for
    their selector being in the skip set. *)
Definition visited (needExported : bool) (sink : string) (skips : gset string)
    (field : Var type) : bool :=
  negb (needExported && negb (var_exported field))
  && negb (bool_decide (afterFirstDot (sink +:+ "." +:+ var_name field) ∈ skips)).

(** An entry of the import table that binds the name, or the flattened
    path, of a package other than [x] some declared type belongs to, to
    the path of that package. *)
Definition foreignBinding (tm : TypeModel) (x : string) (k v : string) : Prop :=
  exists obj pkg,
    obj_pkg (tm_obj tm obj) = Some pkg /\ pkg_name pkg <> x /\ v = pkg_path pkg
    /\ (k = pkg_name pkg \/ k = replaceChar "/"%char "_"%char (pkg_path pkg)).

(** The opening braces of [s] less its closing braces. *)
Fixpoint braces (s : string) : Z :=
  match s with
  | EmptyString => 0
  | String c rest =>
      ((if Ascii.eqb c "{" then 1 else if Ascii.eqb c "}" then -1 else 0) + braces rest)%Z
  end.

(** [s] has as many opening as closing braces. *)
Definition balanced (s : string) : bool := (braces s =? 0)%Z.

(** The names of the fields in [t], the text the library prints for [t]
    and for the types [t] is built from, are balanced.  A named type is
    printed by its name, which [declaredWellNamed] looks at. *)
Fixpoint wellNamed (tm : TypeModel) (t : type) {struct t} : bool :=
  match t with
  | Named _ => true
  | Pointer e | Slice e | Array _ e | Chan _ e =>
      balanced (tm_string tm t) && wellNamed tm e
  | Map k e => balanced (tm_string tm t) && (wellNamed tm k && wellNamed tm e)
  | Struct fs =>
      balanced (tm_string tm t)
      && forallb (fun f => balanced (var_name f) && wellNamed tm (var_type f)) fs
  | _ => balanced (tm_string tm t)
  end.

(** The same for the declared type [d]: its name, the name and the path
    of its package, and its underlying type. *)
Definition declaredWellNamed (tm : TypeModel) (d : nat) : bool :=
  balanced (obj_name (tm_obj tm d))
  && match obj_pkg (tm_obj tm d) with
     | Some pkg => balanced (pkg_name pkg) && balanced (pkg_path pkg)
     | None => true
     end
  && wellNamed tm (tm_underlying tm d).

(** Count the braces of a text built by appending, [split] being the
    equation of the count of an append: split at every append and evaluate
    the count of every literal piece. *)
Ltac count_braces split :=
  rewrite ?split;
  repeat match goal with
         | |- context [braces ?s] =>
             lazymatch s with
             | String _ _ => idtac
             | EmptyString => idtac
             | nl => idtac
             | tab => idtac
             | closeBrace => idtac
             end;
             let v := eval vm_compute in (braces s) in
             progress change (braces s) with v
         end.

(** * Properties *)

(** ** The capability detector and the reuse check *)

Section Detection.
Context (tm : TypeModel).

(** Whether a capability is found does not depend on the shape asked
    for. *)
Lemma hasDeepCopy_fst v G p q :
  fst (hasDeepCopy tm v G p) = fst (hasDeepCopy tm v G q).
Proof. unfold hasDeepCopy. destruct (existsb _ _); reflexivity. Qed.

(** For a member of the generation set the shape reported is the
    argument [pointer], whatever it is. *)
Lemma hasDeepCopy_generating v G p :
  existsb (Identical v) G = true -> hasDeepCopy tm v G p = (true, p).
Proof. unfold hasDeepCopy. intros ->. reflexivity. Qed.

(** Outside the generation set the answer comes from the methods alone. *)
Lemma hasDeepCopy_outside v G p :
  existsb (Identical v) G = false ->
  hasDeepCopy tm v G p = scanMethods v (methodsOf tm v).
Proof. unfold hasDeepCopy. intros ->. reflexivity. Qed.

Lemma reuseDeepCopy_found source sink v p G isP :
  hasDeepCopy tm v G p = (true, isP) ->
  reuseDeepCopy tm source sink v p G =
    (if Bool.eqb p isP then callDirect source sink
     else if p then callWrap source sink else callDeref source sink, true).
Proof. unfold reuseDeepCopy. intros ->. reflexivity. Qed.

Lemma reuseDeepCopy_none source sink v p G :
  fst (hasDeepCopy tm v G p) = false ->
  reuseDeepCopy tm source sink v p G = ("", false).
Proof.
  unfold reuseDeepCopy. destruct (hasDeepCopy tm v G p) as [h i]; simpl.
  intros ->. reflexivity.
Qed.

(** The check at the head of [walkType], when it does not fire ... *)
Lemma check_falls_through source sink m G initial :
  reusedAt tm m G initial = false ->
  (if isMethoder m && negb initial
   then reuseDeepCopy tm source sink m false G else ("", false)) = ("", false).
Proof.
  unfold reusedAt. intros H.
  destruct (isMethoder m && negb initial); [|reflexivity].
  simpl in H. by apply reuseDeepCopy_none.
Qed.

(** ... and when it does. *)
Lemma check_fires source sink m G initial :
  reusedAt tm m G initial = true ->
  (if isMethoder m && negb initial
   then reuseDeepCopy tm source sink m false G else ("", false))
  = (if snd (hasDeepCopy tm m G false) then callDeref source sink
     else callDirect source sink, true).
Proof.
  unfold reusedAt. intros H.
  destruct (isMethoder m && negb initial); [|discriminate].
  simpl in H. destruct (hasDeepCopy tm m G false) as [h i] eqn:E. simpl in *. subst h.
  rewrite (reuseDeepCopy_found _ _ _ _ _ _ E). by destruct i.
Qed.

(** A reused type costs one unit of fuel and leaves the imports alone:
    nothing below it is visited. *)
Lemma walkType_reused fuel source sink x m imports skips G initial :
  reusedAt tm m G initial = true ->
  walkType tm (S fuel) source sink x m imports skips G initial =
    Some (if snd (hasDeepCopy tm m G false) then callDeref source sink
          else callDirect source sink, imports).
Proof. intros H. cbn [walkType]. by rewrite (check_fires _ _ _ _ _ H). Qed.
End Detection.

(** What the scan of the methods answers.  Method names are distinct in Go,
    so the first method named [DeepCopy] is the only one: a capability is
    found exactly when it has no parameter and one result whose type,
    reduced by [reducePointer], is identical to the reduced receiver; the
    shape is whether [reducePointer] reduced the result. *)
Lemma scanMethods_found v ms isP :
  NoDup (fn_name <$> ms) ->
  scanMethods v ms = (true, isP) <->
  exists m ret,
    m ∈ ms /\ fn_name m = "DeepCopy" /\ fn_params m = [] /\ fn_results m = [ret]
    /\ Identical (fst (reducePointer ret)) (fst (reducePointer (recvType v m))) = true
    /\ isP = snd (reducePointer ret).
Proof.
  induction ms as [|m ms IH]; intros Hnd.
  - split; [done|]. intros (m & ret & Hin & _). by apply elem_of_nil in Hin.
  - rewrite fmap_cons in Hnd. apply NoDup_cons in Hnd as [Hfresh Hnd].
    cbn [scanMethods].
    destruct (String.eqb_spec (fn_name m) "DeepCopy") as [Hname|Hname]; cbn [negb].
    + assert (Hothers : forall m', m' ∈ ms -> fn_name m' <> "DeepCopy").
      { intros m' Hin Heq. apply Hfresh. rewrite Hname, <- Heq.
        by apply list_elem_of_fmap_2. }
      assert (Hrest : scanMethods v ms = (false, false)).
      { clear -Hothers. induction ms as [|m' ms IH]; [done|]. cbn [scanMethods].
        destruct (String.eqb_spec (fn_name m') "DeepCopy") as [Heq|_]; cbn [negb].
        - exfalso. eapply Hothers; [apply list_elem_of_here | done].
        - apply IH. intros m'' Hin. apply Hothers. by apply list_elem_of_further. }
      destruct m as [name recv ps rs]. cbn [fn_name fn_params fn_results] in *.
      destruct ps as [|p ps]; cbn [length Nat.eqb negb orb].
      * destruct rs as [|ret [|ret' rs]]; cbn [length Nat.eqb negb orb].
        -- rewrite Hrest. split; [done|].
           intros (m & ret & Hin & Hn & Hp & Hr & _).
           apply elem_of_cons in Hin as [->|Hin]; [done|]. by destruct (Hothers m Hin).
        -- set (m0 := mkFunc name recv [] [ret]).
           destruct (reducePointer ret) as [retType retPointer] eqn:Eret.
           destruct (reducePointer (recvType v m0)) as [sigType b] eqn:Esig.
           destruct (Identical retType sigType) eqn:Eid; cbn [negb].
           ++ split.
              ** intros [= <-]. exists m0, ret. split; [apply list_elem_of_here|].
                 by rewrite Eret, Esig.
              ** intros (m & ret0 & Hin & Hn & Hp & Hr & Hid & ->).
                 apply elem_of_cons in Hin as [->|Hin]; [|by destruct (Hothers m Hin)].
                 cbn [fn_results m0] in Hr. injection Hr as <-. by rewrite Eret.
           ++ split; [done|].
              intros (m & ret0 & Hin & Hn & Hp & Hr & Hid & ->).
              apply elem_of_cons in Hin as [->|Hin]; [|by destruct (Hothers m Hin)].
              cbn [fn_results m0] in Hr. injection Hr as <-.
              rewrite Eret, Esig in Hid. cbn [fst] in Hid. congruence.
        -- rewrite Hrest. split; [done|].
           intros (m & ret0 & Hin & Hn & Hp & Hr & _).
           apply elem_of_cons in Hin as [->|Hin]; [done|]. by destruct (Hothers m Hin).
      * rewrite Hrest. split; [done|].
        intros (m & ret0 & Hin & Hn & Hp & Hr & _).
        apply elem_of_cons in Hin as [->|Hin]; [done|]. by destruct (Hothers m Hin).
    + rewrite (IH Hnd). split.
      * intros (m' & ret & Hin & H). exists m', ret. split; [by apply list_elem_of_further|done].
      * intros (m' & ret & Hin & Hn & H). exists m', ret.
        apply elem_of_cons in Hin as [->|Hin]; [done|]. done.
Qed.

(** ** C1: the shape reported for a member of the generation set *)

(** C1 (the code departs from the claim).  [A{Next *B}] and [B{Prev *A}]
    are generated together and the run is configured for value receivers.
    Asked about [B], a member of the generation set, the detector answers
    with the shape of the call site: pointer when asked from the pointer
    case, value when asked from the head of the walk.  The configured shape
    (value) is not consulted, so the method of [A] stores the value that
    [B]'s [DeepCopy] returns straight into the field of type [*B]. *)
Theorem C1_generating_shape_is_call_site :
  let G := [Named 0; Named 1] in
  hasDeepCopy exampleTypes (Named 1) G true = (true, true)
  /\ hasDeepCopy exampleTypes (Named 1) G false = (true, false)
  /\ generateFunc exampleTypes 3 examplePackage 0 ∅ ∅ false G =
       Some (methodHeader false "A" "o" +:+
             ifNotNil "o.Next" +:+ callDirect "o.Next" "cp.Next" +:+ closeBrace +:+
             methodFooter false, ∅).
Proof. repeat split; vm_compute; reflexivity. Qed.

(** ** C2: the map case *)




(** ** C3: which methods count as a capability *)

(** C3 (the code departs from the claim).  [T] is not being generated and
    declares [func (T) DeepCopy() []T].  The result is a slice of [T], not
    [T] nor a pointer to it, yet [reducePointer] takes the element type of
    the slice, the detector reports a capability of pointer shape, and the
    walk of a field of type [T] dereferences the slice. *)
Theorem C3_slice_result_is_reused :
  existsb (Identical (Named 5)) [] = false
  /\ methodsOf exampleTypes (Named 5) = [deepCopyMethod (Named 5) (Slice (Named 5))]
  /\ reducePointer (Slice (Named 5)) = (Named 5, true)
  /\ hasDeepCopy exampleTypes (Named 5) [] false = (true, true)
  /\ walkType exampleTypes 1 "o.F" "cp.F" "p" (Named 5) ∅ ∅ [] false =
       Some (callDeref "o.F" "cp.F", ∅).
Proof. repeat split; vm_compute; reflexivity. Qed.

(** ** C4: a detected capability is called, not inlined *)

(** Wherever the walk detects a capability on a type below the top level
    it prints the call and nothing else, for any fuel and whatever the type
    is made of: nothing below it is visited and the import table is left
    alone.  The call is fitted to the target by the shape the detector
    reports: at the type itself the target is a value, and a result
    reported of pointer shape is dereferenced; behind a pointer the target
    is a pointer, and a result reported of value shape is wrapped into
    [&retV].  For a type outside the generation set the shape reported is
    read from its method alone. *)
Lemma reported_capability_is_called tm fuel source sink x m imports skips G isV isP :
  isMethoder m = true ->
  hasDeepCopy tm m G false = (true, isV) ->
  hasDeepCopy tm m G true = (true, isP) ->
  walkType tm (S fuel) source sink x m imports skips G false =
    Some (if isV then callDeref source sink else callDirect source sink, imports)
  /\ (forall ptr,
        Underlying tm ptr = Pointer m -> reusedAt tm ptr G false = false ->
        walkType tm (S fuel) source sink x ptr imports skips G false =
          Some (ifNotNil source +:+
                (if isP then callDirect source sink else callWrap source sink) +:+
                closeBrace, imports))
  /\ (existsb (Identical m) G = false ->
        isV = isP /\ (true, isV) = scanMethods m (methodsOf tm m)).
Proof.
  intros Hm HV HP. repeat split.
  - rewrite walkType_reused.
    + by rewrite HV.
    + unfold reusedAt. by rewrite Hm, HV.
  - intros ptr HU HR. cbn [walkType].
    rewrite (check_falls_through _ _ _ _ _ _ HR), HU, Hm. cbn [negb andb].
    rewrite (reuseDeepCopy_found _ _ _ _ _ _ _ HP). by destruct isP.
  - rewrite (hasDeepCopy_outside tm m G false H) in HV.
    rewrite (hasDeepCopy_outside tm m G true H) in HP. congruence.
  - by rewrite (hasDeepCopy_outside tm m G false H) in HV.
Qed.

(** C4 (the code departs from the claim).  [A{Next *B}] and [B{Prev *A}]
    are generated together.  Outside the generation set the call is fitted
    to its target as the claim says: [V] has a [DeepCopy] written by hand
    that returns a [V], and a field of type [*V] gets the result wrapped;
    [P] has one that returns a [*P], and a field of type [P] gets the result
    dereferenced.  For a member of the generation set the shape of its
    method, which is the receiver shape of the run, is not looked at.  With
    value receivers the method generated for [B] returns a [B], as the
    method of [V] does; yet the field [Next] of type [*B] is assigned the
    result as it is, not wrapped.  With pointer receivers the method
    generated for [B] returns a [*B], as the method of [P] does; yet a
    field of type [B] is assigned the result as it is, not dereferenced. *)
Theorem C4_generated_capability_is_not_fitted :
  let G := [Named 0; Named 1] in
  walkType exampleTypes 1 "o.B" "cp.B" "p" (Pointer (Named 12)) ∅ ∅ G false =
    Some ("if o.B != nil {" +:+ nl +:+
          "retV := o.B.DeepCopy()" +:+ nl +:+
          tab +:+ "cp.B = &retV" +:+ nl +:+
          "}" +:+ nl, ∅)
  /\ walkType exampleTypes 1 "o.C" "cp.C" "p" (Named 13) ∅ ∅ G false =
       Some ("{" +:+ nl +:+
             tab +:+ "retV := o.C.DeepCopy()" +:+ nl +:+
             tab +:+ "cp.C = *retV" +:+ nl +:+
             "}" +:+ nl, ∅)
  /\ generateAll exampleTypes 3 examplePackage [0; 1] 0 [] false G ∅ =
       Some (["// DeepCopy generates a deep copy of A" +:+ nl +:+
              "func (o A) DeepCopy() A {" +:+ nl +:+
              tab +:+ "var cp A = o" +:+ nl +:+
              "if o.Next != nil {" +:+ nl +:+
              "cp.Next = o.Next.DeepCopy()" +:+ nl +:+
              "}" +:+ nl +:+
              "return cp" +:+ nl +:+ "}";
              "// DeepCopy generates a deep copy of B" +:+ nl +:+
              "func (o B) DeepCopy() B {" +:+ nl +:+
              tab +:+ "var cp B = o" +:+ nl +:+
              "if o.Prev != nil {" +:+ nl +:+
              "cp.Prev = o.Prev.DeepCopy()" +:+ nl +:+
              "}" +:+ nl +:+
              "return cp" +:+ nl +:+ "}"], ∅)
  /\ generateFunc exampleTypes 3 examplePackage 1 ∅ ∅ true G =
       Some ("// DeepCopy generates a deep copy of *B" +:+ nl +:+
             "func (o *B) DeepCopy() *B {" +:+ nl +:+
             tab +:+ "var cp B = *o" +:+ nl +:+
             "if o.Prev != nil {" +:+ nl +:+
             "cp.Prev = o.Prev.DeepCopy()" +:+ nl +:+
             "}" +:+ nl +:+
             "return &cp" +:+ nl +:+ "}", ∅)
  /\ walkType exampleTypes 1 "o.F" "cp.F" "p" (Named 1) ∅ ∅ G false =
       Some ("cp.F = o.F.DeepCopy()" +:+ nl, ∅).
Proof. repeat split; vm_compute; reflexivity. Qed.

(** ** C5: types that refer to each other *)

(** *** More fuel changes nothing *)

Lemma walkFields_mono walk walk' :
  (forall so si t imp r, walk so si t imp = Some r -> walk' so si t imp = Some r) ->
  forall fields needExported source sink skips imports r,
    walkFields walk needExported source sink skips fields imports = Some r ->
    walkFields walk' needExported source sink skips fields imports = Some r.
Proof.
  intros Hw. induction fields as [|field rest IH]; intros ne source sink skips imports r;
    cbn [walkFields]; [done|].
  destruct (ne && negb (var_exported field)); [apply IH|].
  destruct (bool_decide _); [apply IH|].
  destruct (walk _ _ _ imports) as [[out i1]|] eqn:E; [|discriminate].
  rewrite (Hw _ _ _ _ _ E). cbn [mbind option_bind].
  destruct (walkFields walk ne source sink skips rest i1) as [[more i2]|] eqn:E'; [|discriminate].
  by rewrite (IH _ _ _ _ _ _ E').
Qed.

Lemma walkType_mono tm fuel : forall source sink x m imports skips G initial r,
  walkType tm fuel source sink x m imports skips G initial = Some r ->
  walkType tm (S fuel) source sink x m imports skips G initial = Some r.
Proof.
  induction fuel as [|fuel IH]; intros source sink x m imports skips G initial r H;
    [discriminate|].
  set (more := S fuel) in *. cbn [walkType]. unfold more in H. cbn [walkType] in H.
  destruct (if isMethoder m && negb initial then _ else _) as [call [|]]; [done|].
  destruct (Underlying tm m); try done.
  - destruct (if isMethoder _ && negb initial then _ else _) as [call' [|]]; [done|].
    destruct (getElemType tm _ x imports true) as [kind i1].
    by nested_walk IH H.
  - destruct (getElemType tm _ x imports false) as [kind i1].
    destruct (bool_decide _); [done|]. by nested_walk IH H.
  - destruct (getElemType tm _ x imports false) as [kkind i1].
    destruct (getElemType tm _ x i1 false) as [vkind i2].
    destruct (bool_decide _); [done|].
    nested_walk IH H. destruct (nonEmpty _); by nested_walk IH H.
  - revert H. apply walkFields_mono. intros so si t imp r'. apply IH.
Qed.

Lemma walkType_mono_le tm n fuel source sink x m imports skips G initial r :
  n <= fuel ->
  walkType tm n source sink x m imports skips G initial = Some r ->
  walkType tm fuel source sink x m imports skips G initial = Some r.
Proof. induction 1 as [|fuel _ IH]; [done|]. intros H. by apply walkType_mono, IH. Qed.

Lemma generateFunc_mono_le tm n fuel p obj imports skips pointer G r :
  n <= fuel ->
  generateFunc tm n p obj imports skips pointer G = Some r ->
  generateFunc tm fuel p obj imports skips pointer G = Some r.
Proof.
  intros Hle. unfold generateFunc.
  destruct (walkType tm n _ _ _ _ _ _ _ _) as [[body i]|] eqn:E; [|discriminate].
  by rewrite (walkType_mono_le _ _ _ _ _ _ _ _ _ _ _ _ Hle E).
Qed.

Lemma generateAll_mono_le tm n fuel p objs : forall i skips pointer G imports r,
  n <= fuel ->
  generateAll tm n p objs i skips pointer G imports = Some r ->
  generateAll tm fuel p objs i skips pointer G imports = Some r.
Proof.
  induction objs as [|obj rest IH]; intros i skips pointer G imports r Hle;
    cbn [generateAll]; [done|].
  destruct (generateFunc tm n _ _ _ _ _ _) as [[fn i1]|] eqn:E; [|discriminate].
  rewrite (generateFunc_mono_le _ _ _ _ _ _ _ _ _ _ Hle E). cbn [mbind option_bind].
  destruct (generateAll tm n p rest _ _ _ _ i1) as [[fns i2]|] eqn:E'; [|discriminate].
  by rewrite (IH _ _ _ _ _ _ Hle E').
Qed.

(** *** A finite type graph is walked with finite fuel *)

Section Termination.
Context (tm : TypeModel) (G : list type).

Lemma walksOut_le m initial n fuel :
  n <= fuel -> walksOut tm G m initial n -> walksOut tm G m initial fuel.
Proof.
  intros Hle H source sink x imports skips.
  destruct (H source sink x imports skips) as [r Hr].
  exists r. by eapply walkType_mono_le.
Qed.

Lemma fieldsWalkOut_le fields n fuel :
  n <= fuel -> fieldsWalkOut tm G fields n -> fieldsWalkOut tm G fields fuel.
Proof.
  intros Hle H ne source sink x imports skips.
  destruct (H ne source sink x imports skips) as [r Hr]. exists r.
  revert Hr. apply walkFields_mono. intros so si t imp r'. by apply walkType_mono_le.
Qed.

Lemma finite_walks_out :
  (forall m, Finite tm G m -> exists n, walksOut tm G m false n)
  /\ (forall under, FiniteUnder tm G under ->
        exists n, forall m initial,
          Underlying tm m = under -> reusedAt tm m G initial = false ->
          walksOut tm G m initial n)
  /\ (forall fields, FiniteFields tm G fields -> exists n, fieldsWalkOut tm G fields n).
Proof.
  apply Finite_mutind.
  - (* a capability is detected *)
    intros m Hm Hhas. exists 1. intros source sink x imports skips.
    rewrite walkType_reused; [done|]. unfold reusedAt. by rewrite Hm, Hhas.
  - (* the switch is reached *)
    intros m _ [n IH]. exists (S n). intros source sink x imports skips.
    destruct (reusedAt tm m G false) eqn:HR.
    + by rewrite walkType_reused.
    + eapply walksOut_le; [|by apply IH]. lia.
  - (* struct *)
    intros fields _ [n IH]. exists (S n).
    intros m initial HU HR source sink x imports skips.
    cbn [walkType]. rewrite (check_falls_through _ _ _ _ _ _ HR), HU. apply IH.
  - (* slice *)
    intros elem _ [n IH]. exists (S n).
    intros m initial HU HR source sink x imports skips.
    cbn [walkType]. rewrite (check_falls_through _ _ _ _ _ _ HR), HU.
    destruct (getElemType tm elem x imports false) as [kind i1].
    destruct (bool_decide _); [done|].
    by destruct (IH (source +:+ "[i]") (sink +:+ "[i]") x i1 skips) as [[b i2] ->].
  - (* pointer *)
    intros elem _ [n IH]. exists (S n).
    intros m initial HU HR source sink x imports skips.
    cbn [walkType]. rewrite (check_falls_through _ _ _ _ _ _ HR), HU.
    destruct (if isMethoder elem && negb initial then _ else _) as [call [|]]; [done|].
    destruct (getElemType tm elem x imports true) as [kind i1].
    by destruct (IH source sink x i1 skips) as [[b i2] ->].
  - (* map *)
    intros key elem _ [nk IHk] _ [nv IHv]. exists (S (nk `max` nv)).
    intros m initial HU HR source sink x imports skips.
    cbn [walkType]. rewrite (check_falls_through _ _ _ _ _ _ HR), HU.
    destruct (getElemType tm key x imports false) as [kkind i1].
    destruct (getElemType tm elem x i1 false) as [vkind i2].
    destruct (bool_decide _); [done|].
    assert (Hk : walksOut tm G key false (nk `max` nv))
      by (apply (walksOut_le _ _ nk); [lia|done]).
    assert (Hv : walksOut tm G elem false (nk `max` nv))
      by (apply (walksOut_le _ _ nv); [lia|done]).
    destruct (Hk "k" (selToIdent sink +:+ "_k") x i2 skips) as [[kb i3] ->].
    cbn [mbind option_bind]. destruct (nonEmpty kb);
      destruct (Hv "v" (selToIdent sink +:+ "_v") x i3 skips) as [[vb i4] ->];
      cbn [mbind option_bind]; by destruct (nonEmpty vb).
  - (* no case *)
    intros under Hleaf. exists 1.
    intros m initial HU HR source sink x imports skips.
    cbn [walkType]. rewrite (check_falls_through _ _ _ _ _ _ HR), HU.
    destruct under; try (by destruct Hleaf); try done.
    destruct (getElemType tm _ x imports false). by eexists.
  - (* no field *)
    exists 0. intros ne source sink x imports skips. by eexists.
  - (* a field and the rest *)
    intros field rest _ [nf IHf] _ [nr IHr]. exists (nf `max` nr).
    assert (Hf : walksOut tm G (var_type field) false (nf `max` nr))
      by (apply (walksOut_le _ _ nf); [lia|done]).
    assert (Hr : fieldsWalkOut tm G rest (nf `max` nr))
      by (apply (fieldsWalkOut_le _ nr); [lia|done]).
    intros ne source sink x imports skips. cbn [walkFields].
    destruct (ne && negb (var_exported field)); [apply Hr|].
    destruct (bool_decide _); [apply Hr|].
    destruct (Hf (source +:+ "." +:+ var_name field) (sink +:+ "." +:+ var_name field)
                 x imports skips) as [[out i1] ->].
    cbn [mbind option_bind].
    by destruct (Hr ne source sink x i1 skips) as [[more i2] ->].
Qed.

(** The same for a requested type, walked from the top: its underlying
    type has to be finite. *)
Lemma finite_top_walks_out obj :
  FiniteUnder tm G (tm_underlying tm obj) -> exists n, walksOut tm G (Named obj) true n.
Proof.
  intros H. destruct finite_walks_out as (_ & Hunder & _).
  destruct (Hunder _ H) as [n Hn]. exists n. by apply Hn.
Qed.
End Termination.

Lemma generateAll_terminates tm G p objs :
  Forall (fun obj => FiniteUnder tm G (tm_underlying tm obj)) objs ->
  exists n, forall i skips pointer imports,
    is_Some (generateAll tm n p objs i skips pointer G imports).
Proof.
  induction 1 as [|obj rest Hobj _ [nr IH]].
  - exists 0. intros. by eexists.
  - destruct (finite_top_walks_out tm G obj Hobj) as [nf Hf].
    exists (nf `max` nr). intros i skips pointer imports. cbn [generateAll].
    unfold generateFunc.
    destruct (walksOut_le tm G _ _ nf (nf `max` nr) ltac:(lia) Hf
                "o" "cp" (p_Name p) imports (default ∅ (skips !! i))) as [[body i1] ->].
    cbn [mbind option_bind].
    destruct (IH (S i) skips pointer i1) as [[fns i2] Hrest].
    rewrite (generateAll_mono_le tm nr (nf `max` nr) p rest _ _ _ _ _ _ ltac:(lia) Hrest).
    by eexists.
Qed.

Lemma generating_member (obj : nat) (objs : list nat) :
  obj ∈ objs -> existsb (Identical (Named obj)) (Named <$> objs) = true.
Proof.
  induction 1 as [obj rest|obj other rest _ IH]; rewrite fmap_cons; cbn [existsb].
  - change (Identical (Named obj) (Named obj)) with (obj =? obj)%nat.
    by rewrite Nat.eqb_refl.
  - rewrite IH. apply orb_true_r.
Qed.

(** A member of the generation set met below the top level, as a value or
    behind a pointer, is answered with the call alone. *)
Lemma member_is_called tm G obj fuel source sink x imports skips :
  existsb (Identical (Named obj)) G = true ->
  walkType tm (S fuel) source sink x (Named obj) imports skips G false =
    Some (callDirect source sink, imports)
  /\ walkType tm (S fuel) source sink x (Pointer (Named obj)) imports skips G false =
       Some (ifNotNil source +:+ callDirect source sink +:+ closeBrace, imports).
Proof.
  intros Hin. split.
  - rewrite walkType_reused.
    + by rewrite (hasDeepCopy_generating tm _ _ false Hin).
    + unfold reusedAt. by rewrite (hasDeepCopy_generating tm _ _ false Hin).
  - cbn [walkType isMethoder Underlying andb negb].
    by rewrite (reuseDeepCopy_found tm _ _ _ _ _ true (hasDeepCopy_generating tm _ _ true Hin)).
Qed.

(** *** A type outside the generation set that contains itself *)

(** [Tree{Children []Tree}] is walked forever when it is not being
    generated: no fuel is enough, for the type or for a slice of it. *)
Lemma tree_never_walks_out fuel : forall source sink imports,
  walkType exampleTypes fuel source sink "p" (Named 2) imports ∅ [Named 3; Named 4] false = None
  /\ walkType exampleTypes fuel source sink "p" (Slice (Named 2)) imports ∅
              [Named 3; Named 4] false = None.
Proof.
  induction fuel as [|fuel IH]; intros source sink imports; [done|].
  split.
  - cbn [walkType]. rewrite check_falls_through by reflexivity.
    change (Underlying exampleTypes (Named 2))
      with (Struct [mkVar "Children" true (Slice (Named 2))]).
    change (needsExported exampleTypes "p" (Named 2)) with false.
    cbn [walkFields var_exported var_name var_type andb].
    rewrite bool_decide_eq_false_2 by apply not_elem_of_empty.
    by rewrite (proj2 (IH _ _ _)).
  - cbn [walkType]. rewrite check_falls_through by reflexivity. cbn [Underlying].
    change (getElemType exampleTypes (Named 2) "p" imports false) with ("Tree", imports).
    rewrite bool_decide_eq_false_2 by apply not_elem_of_empty.
    by rewrite (proj1 (IH _ _ _)).
Qed.

(** So the method of [Node{Next *Peer; Kids []Tree}] is never finished. *)
Lemma node_never_generated fuel imports pointer :
  generateFunc exampleTypes fuel examplePackage 3 imports ∅ pointer [Named 3; Named 4] = None.
Proof.
  unfold generateFunc. destruct fuel as [|fuel]; [done|].
  cbn [walkType isMethoder negb andb].
  change (Underlying exampleTypes (Named 3))
    with (Struct [mkVar "Next" true (Pointer (Named 4)); mkVar "Kids" true (Slice (Named 2))]).
  change (needsExported exampleTypes (p_Name examplePackage) (Named 3)) with false.
  change (p_Name examplePackage) with "p".
  cbn [walkFields var_exported var_name var_type andb].
  rewrite bool_decide_eq_false_2 by apply not_elem_of_empty.
  destruct (walkType exampleTypes fuel _ _ "p" (Pointer (Named 4)) _ _ _ false)
    as [[out i1]|]; [|done].
  cbn [mbind option_bind].
  rewrite bool_decide_eq_false_2 by apply not_elem_of_empty.
  by rewrite (proj2 (tree_never_walks_out fuel _ _ _)).
Qed.

(** C5, as stated, at [Node{Next *Peer; Kids []Tree}] and
    [Peer{Prev *Node}], requested together: they refer to each other, but
    [Node] also holds [Tree], which contains itself and is not requested,
    and the run never returns. *)
Lemma C5_nontermination_outside_set :
  locateAll exampleTypes examplePackage ["Node"; "Peer"] = Ok [3; 4]
  /\ forall fuel, run (exampleWorld true) fuel "./p" ["Node"; "Peer"] [] false = None.
Proof.
  split; [vm_compute; reflexivity|]. intros fuel.
  unfold run.
  change (packages_Load (exampleWorld true) "./p") with (Ok [examplePackage]).
  change (go_types (exampleWorld true)) with exampleTypes. cbv beta iota.
  change (locateAll exampleTypes examplePackage ["Node"; "Peer"]) with (Ok [3; 4]).
  cbn [generateAll fmap list_fmap].
  change (default ∅ ([] !! 0)) with (∅ : gset string).
  by rewrite node_never_generated.
Qed.

(** C5, amended.  The requested types are located in the loaded package,
    and the structure of each, cut at the types a capability is detected
    for (the members of the generation set among them), is finite: no type
    outside the set that lacks a capability contains itself.  Then some
    amount of fuel is enough for the run, which is to say it returns, with
    the same methods and the same result for any larger amount.  Wherever
    a method meets a member of the generation set, as a value or behind a
    pointer, it prints the call of that member's [DeepCopy] and nothing of
    its body.  Whether the text of the methods parses is not part of the
    statement. *)
Theorem C5_mutual_types_terminate w path types skips pointer p ps objs :
  packages_Load w path = Ok (p :: ps) ->
  locateAll (go_types w) p types = Ok objs ->
  Forall (fun obj => FiniteUnder (go_types w) (Named <$> objs)
                                 (tm_underlying (go_types w) obj)) objs ->
  (exists n fns imports r,
     forall fuel, n <= fuel ->
       generateAll (go_types w) fuel p objs 0 skips pointer (Named <$> objs) ∅ =
         Some (fns, imports)
       /\ run w fuel path types skips pointer = Some r)
  /\ (forall obj, obj ∈ objs ->
      forall fuel source sink x imports skips',
        walkType (go_types w) (S fuel) source sink x (Named obj) imports skips'
                 (Named <$> objs) false =
          Some (callDirect source sink, imports)
        /\ walkType (go_types w) (S fuel) source sink x (Pointer (Named obj)) imports skips'
                    (Named <$> objs) false =
             Some (ifNotNil source +:+ callDirect source sink +:+ closeBrace, imports)).
Proof.
  intros Hload Hlocate Hfin. split.
  - destruct (generateAll_terminates _ _ p _ Hfin) as [n Hn].
    destruct (Hn 0 skips pointer ∅) as [[fns imports] Hgen].
    exists n, fns, imports.
    exists (match generateFile w p imports fns with
            | Err err => Err ("generating file content: " +:+ err)
            | Ok b => Ok b
            end).
    intros fuel Hle.
    pose proof (generateAll_mono_le _ _ _ _ _ _ _ _ _ _ _ Hle Hgen) as Hgen'.
    split; [done|].
    unfold run. rewrite Hload, Hlocate, Hgen'. cbn [mbind option_bind].
    by destruct (generateFile w p imports fns).
  - intros obj Hin fuel source sink x imports skips'.
    by apply member_is_called, generating_member.
Qed.

(** C5, amended, at [A{Next *B}] and [B{Prev *A}] requested together: the
    run returns for every fuel from some amount on. *)
Lemma C5_mutual_types_terminate_witness :
  exists n r, forall fuel, n <= fuel ->
    run (exampleWorld true) fuel "./p" ["A"; "B"] [] false = Some r.
Proof.
  destruct (C5_mutual_types_terminate (exampleWorld true) "./p" ["A"; "B"] [] false
              examplePackage [] [0; 1] eq_refl eq_refl) as [(n & fns & imports & r & H) _].
  - assert (Hfield : forall obj name, existsb (Identical (Named obj)) [Named 0; Named 1] = true ->
              FiniteUnder exampleTypes [Named 0; Named 1]
                          (Struct [mkVar name true (Pointer (Named obj))])).
    { intros obj name Hin. apply fu_struct, ff_cons; [|apply ff_nil].
      apply fin_dispatch, fu_pointer, fin_reused; [reflexivity|].
      by rewrite (hasDeepCopy_generating _ _ _ _ Hin). }
    constructor; [exact (Hfield 1 "Next" eq_refl)|].
    constructor; [exact (Hfield 0 "Prev" eq_refl)|]. constructor.
  - exists n, r. intros fuel Hle. exact (proj2 (H fuel Hle)).
Defined.

(** The text of that run: each method calls the other. *)
Lemma mutual_types_call_each_other :
  run (exampleWorld true) 3 "./p" ["A"; "B"] [] false =
    Some (Ok ("// generated by deep-copy; DO NOT EDIT." +:+ nl +:+ nl +:+
              "package p" +:+ nl +:+ nl +:+
              methodHeader false "A" "o" +:+
              ifNotNil "o.Next" +:+ callDirect "o.Next" "cp.Next" +:+ closeBrace +:+
              methodFooter false +:+ nl +:+ nl +:+
              methodHeader false "B" "o" +:+
              ifNotNil "o.Prev" +:+ callDirect "o.Prev" "cp.Prev" +:+ closeBrace +:+
              methodFooter false +:+ nl +:+ nl)).
Proof. vm_compute. reflexivity. Qed.

(** ** C6: the slice case *)

(** C6, as stated, at [List], a named slice type with a [DeepCopy] method
    of its own: the walk of a field of that type prints the call and
    neither allocates nor copies. *)
Lemma C6_named_slice_with_capability :
  Underlying exampleTypes (Named 6) = Slice int
  /\ walkType exampleTypes 2 "o.L" "cp.L" "p" (Named 6) ∅ ∅ [] false =
       Some ("cp.L = o.L.DeepCopy()" +:+ nl, ∅).
Proof. split; vm_compute; reflexivity. Qed.

(** C6, amended.  For every slice the capability check does not fire on
    (an unnamed slice type always, a named one unless a capability is
    detected below the top level), the walk prints, under the guard on the
    source, [make] with the length of the source and [copy].  When the
    selector of the elements is in the skip set that is all, and the
    elements are not visited.  Otherwise the element type is walked with
    [i] appended to source and sink, and the loop over the indices is
    printed exactly when that walk printed something; the slice walk
    returns exactly when the element walk does. *)
Theorem C6_slice_alloc_copy_loop tm fuel source sink x m elem imports skips G initial :
  Underlying tm m = Slice elem ->
  reusedAt tm m G initial = false ->
  let kind := fst (getElemType tm elem x imports false) in
  let imports1 := snd (getElemType tm elem x imports false) in
  let elemWalk :=
    walkType tm fuel (source +:+ "[i]") (sink +:+ "[i]") x elem imports1 skips G false in
  (elemSelector sink initial "[i]" ∈ skips ->
     walkType tm (S fuel) source sink x m imports skips G initial =
       Some (sliceAlloc source sink kind +:+ closeBrace, imports1))
  /\ (elemSelector sink initial "[i]" ∉ skips ->
        (forall b imports2,
           elemWalk = Some (b, imports2) ->
           walkType tm (S fuel) source sink x m imports skips G initial =
             Some (sliceAlloc source sink kind +:+ sliceLoop source b +:+ closeBrace,
                   imports2))
        /\ (elemWalk = None ->
            walkType tm (S fuel) source sink x m imports skips G initial = None))
  /\ (forall b,
        (b = "" -> sliceLoop source b = "")
        /\ (b <> "" ->
            sliceLoop source b =
              "    for i := range " +:+ source +:+ " {" +:+ nl +:+ b +:+ closeBrace)).
Proof.
  intros HU HR kind imports1 elemWalk.
  assert (Hstep : walkType tm (S fuel) source sink x m imports skips G initial =
                  '(b, imports2) ←
                    (if bool_decide (elemSelector sink initial "[i]" ∈ skips)
                     then Some ("", imports1) else elemWalk);
                  Some (sliceAlloc source sink kind +:+ sliceLoop source b +:+ closeBrace,
                        imports2)).
  { cbn [walkType]. rewrite (check_falls_through _ _ _ _ _ _ HR), HU.
    subst kind imports1 elemWalk.
    by destruct (getElemType tm elem x imports false) as [k i]. }
  split; [|split].
  - intros Hin. rewrite Hstep, bool_decide_eq_true_2 by done. reflexivity.
  - intros Hout. rewrite bool_decide_eq_false_2 in Hstep by done. split.
    + intros b imports2 Hb. by rewrite Hstep, Hb.
    + intros Hb. by rewrite Hstep, Hb.
  - intros b. split.
    + by intros ->.
    + intros Hb. by destruct b.
Qed.

(** C6, amended, at a field of type [[]*int]: allocation, copy, and the
    loop in which every element is copied. *)
Lemma C6_slice_alloc_copy_loop_witness :
  walkType exampleTypes 3 "o.Ps" "cp.Ps" "p" (Slice (Pointer int)) ∅ ∅ [] false =
    Some (sliceAlloc "o.Ps" "cp.Ps" "*int" +:+
          sliceLoop "o.Ps" (ifNotNil "o.Ps[i]" +:+ pointerAlloc "o.Ps[i]" "cp.Ps[i]" "int" +:+
                            closeBrace) +:+
          closeBrace, ∅).
Proof.
  pose proof (C6_slice_alloc_copy_loop exampleTypes 2 "o.Ps" "cp.Ps" "p" (Slice (Pointer int))
                (Pointer int) ∅ ∅ [] false eq_refl eq_refl) as (_ & H & _).
  apply H.
  - apply not_elem_of_empty.
  - vm_compute. reflexivity.
Defined.

(** ** C7: aliases of imported packages *)

Section Aliases.
Context (imports : gmap string string) (pkg : TypesPackage).

(** A package whose short name is free gets that name. *)
Lemma aliasFor_unseen :
  imports !! pkg_name pkg = None -> aliasFor imports pkg = pkg_name pkg.
Proof. unfold aliasFor. by intros ->. Qed.

(** A package already recorded under its short name keeps it. *)
Lemma aliasFor_same :
  imports !! pkg_name pkg = Some (pkg_path pkg) -> aliasFor imports pkg = pkg_name pkg.
Proof. unfold aliasFor. intros ->. by rewrite String.eqb_refl. Qed.

(** A package whose short name belongs to another path gets its own path
    with the slashes turned into underscores. *)
Lemma aliasFor_collision path :
  imports !! pkg_name pkg = Some path -> path <> pkg_path pkg ->
  aliasFor imports pkg = replaceChar "/"%char "_"%char (pkg_path pkg).
Proof.
  unfold aliasFor. intros -> Hne.
  destruct (String.eqb_spec path (pkg_path pkg)); [contradiction | reflexivity].
Qed.

(** Recording a package twice in a row changes nothing the second time. *)
Lemma aliasFor_idempotent :
  let name := aliasFor imports pkg in
  let imports' := <[name := pkg_path pkg]> imports in
  aliasFor imports' pkg = name
  /\ <[aliasFor imports' pkg := pkg_path pkg]> imports' = imports'.
Proof.
  cbn zeta.
  assert (H : aliasFor (<[aliasFor imports pkg := pkg_path pkg]> imports) pkg
              = aliasFor imports pkg).
  { destruct (imports !! pkg_name pkg) as [path|] eqn:E.
    - destruct (decide (path = pkg_path pkg)) as [->|Hne].
      + rewrite (aliasFor_same E). unfold aliasFor.
        by rewrite lookup_insert_eq, String.eqb_refl.
      + rewrite (aliasFor_collision path E Hne).
        set (flat := replaceChar _ _ _). unfold aliasFor.
        destruct (decide (flat = pkg_name pkg)) as [Heq|Hneq].
        * by rewrite <- Heq, lookup_insert_eq, String.eqb_refl.
        * rewrite lookup_insert_ne, E by done.
          by destruct (String.eqb_spec path (pkg_path pkg)).
    - rewrite (aliasFor_unseen E). unfold aliasFor.
      by rewrite lookup_insert_eq, String.eqb_refl. }
  split; [exact H|]. rewrite H. apply insert_insert_eq.
Qed.
End Aliases.

(** C7 (the code departs from the claim).  Two packages are both named
    [time]: one at [example.com/time], recorded first under [time], then
    the standard [time].  The short name is taken by another path, so the
    alias of the second is its flattened path, which for a path without a
    slash is [time] again: the entry of the first package is overwritten.
    Both element types are printed with the alias [time] and the table
    ends with the single entry [time -> time]. *)
Theorem C7_alias_is_overwritten :
  let first := getElemType exampleTypes (Named 9) "p" ∅ false in
  let second := getElemType exampleTypes (Named 10) "p" (snd first) false in
  first = ("time.Stamp", {["time" := "example.com/time"]})
  /\ second = ("time.Time", {["time" := "time"]})
  /\ generateFunc exampleTypes 4 examplePackage 11 ∅ ∅ false [Named 11] =
       Some (methodHeader false "Event" "o" +:+
             sliceAlloc "o.At" "cp.At" "time.Stamp" +:+ closeBrace +:+
             sliceAlloc "o.Seen" "cp.Seen" "time.Time" +:+ closeBrace +:+
             methodFooter false, {["time" := "time"]}).
Proof. repeat split; vm_compute; reflexivity. Qed.

(** ** The command line *)

Lemma typesVal_Set_all acc vs : foldl typesVal_Set acc vs = (acc ++ vs)%list.
Proof.
  revert acc. induction vs as [|v vs IH]; intros acc; cbn [foldl].
  - by rewrite app_nil_r.
  - rewrite IH. unfold typesVal_Set. by rewrite <- app_assoc.
Qed.

(** Parsing the [-o] flags opens and closes files and does nothing else. *)
Lemma parseOutput_events w vs : forall f serial f' evs err,
  parseOutput w f serial vs = (f', evs, err) ->
  Forall (fun e => isOpenFile e = true \/ isClose e = true) evs.
Proof.
  induction vs as [|v vs IH]; intros f serial f' evs err; cbn [parseOutput].
  - intros [= <- <- <-]. constructor.
  - unfold outputVal_Set.
    destruct (String.eqb v "-" || String.eqb v "").
    + destruct (parseOutput w _ (S serial) vs) as [[f2 evs2] err2] eqn:E.
      intros [= <- <- <-]. apply IH in E.
      destruct (ov_file f); cbn [app]; [constructor; [by right | done] | done].
    + destruct (os_OpenFile w v).
      * destruct (parseOutput w _ (S serial) vs) as [[f2 evs2] err2] eqn:E.
        intros [= <- <- <-]. apply IH in E. cbn [app]. constructor; [by left | done].
      * intros [= <- <- <-]. constructor; [by left | constructor].
Qed.

Lemma parseOutput_quiet w vs f serial f' evs err :
  parseOutput w f serial vs = (f', evs, err) ->
  Forall (fun e => touchesOutput e = false /\ isReturned e = false) evs.
Proof.
  intros H. eapply Forall_impl; [by eapply parseOutput_events|].
  intros [] [?|?]; done.
Qed.

(** ** C8: a text that does not parse *)

Lemma append_assoc (a b c : string) : (a +:+ b) +:+ c = a +:+ (b +:+ c).
Proof.
  induction a as [|ch a IH]; [reflexivity|].
  change (String ch ((a +:+ b) +:+ c) = String ch (a +:+ (b +:+ c))). by f_equal.
Qed.

Lemma endsWith_append (pre s suffix : string) :
  endsWith s suffix -> endsWith (pre +:+ s) suffix.
Proof. intros [q ->]. exists (pre +:+ q). by rewrite append_assoc. Qed.

Lemma formatError_endsWith err text : endsWith (formatError err text) text.
Proof.
  unfold formatError. do 5 apply endsWith_append. by exists "".
Qed.

(** C8.  When the formatter rejects the assembled text, [generateFile]
    fails with a message that ends with that very text, [run] fails with
    it, and [main] exits with status 1 and the message right after [run]
    returns: the trace of the whole run has neither a truncation nor a
    write. *)
Theorem C8_malformed_output_is_fatal w fuel cl outputF evs path p ps objs fns imports err :
  let skipsF := foldl skipsVal_Set [] (cl_skip cl) in
  let text := assemble (os_Args w) p imports (range_imports w imports) fns in
  let msg := "generating file content: " +:+ formatError err text in
  let trace :=
    (evs ++ [Returned (Err msg); Exit 1 ("Error generating deep copy method: " +:+ msg)])%list in
  parseOutput w (mkOutputVal None "") 0 (cl_o cl) = (outputF, evs, None) ->
  default "" (cl_type cl !! 0) <> "" ->
  cl_args cl = [path] ->
  packages_Load w path = Ok (p :: ps) ->
  locateAll (go_types w) p (cl_type cl) = Ok objs ->
  generateAll (go_types w) fuel p objs 0 skipsF (cl_pointer_receiver cl) (Named <$> objs) ∅
    = Some (fns, imports) ->
  format_Source w text = Err err ->
  generateFile w p imports fns = Err (formatError err text)
  /\ endsWith (formatError err text) text
  /\ endsWith msg text
  /\ run w fuel path (cl_type cl) skipsF (cl_pointer_receiver cl) = Some (Err msg)
  /\ main w fuel cl = Some trace
  /\ Forall (fun e => touchesOutput e = false) trace.
Proof.
  intros skipsF text msg trace Hparse Htype Hargs Hload Hlocate Hgen Hfmt.
  assert (Hfile : generateFile w p imports fns = Err (formatError err text)).
  { unfold generateFile. fold text. by rewrite Hfmt. }
  assert (Hrun : run w fuel path (cl_type cl) skipsF (cl_pointer_receiver cl) = Some (Err msg)).
  { unfold run. rewrite Hload, Hlocate, Hgen. cbn [mbind option_bind]. by rewrite Hfile. }
  repeat split; try done.
  - apply formatError_endsWith.
  - apply endsWith_append, formatError_endsWith.
  - unfold main. rewrite Hparse, typesVal_Set_all, app_nil_l, Hargs.
    destruct (cl_type cl) as [|t ts]; [done|].
    cbn [length lookup list_lookup default] in *. unfold id in *.
    rewrite bool_decide_eq_false_2 by done. cbn [orb Nat.eqb negb].
    destruct (String.eqb_spec t ""); [done|].
    fold skipsF. rewrite Hrun. reflexivity.
  - apply Forall_app. split.
    + eapply Forall_impl; [by eapply parseOutput_quiet|]. by intros ? [? _].
    + by repeat constructor.
Qed.

(** C8 in a world whose formatter rejects everything: [-type A -o out.go
    ./p] opens the file, generates, and exits without touching it. *)
Lemma C8_malformed_output_is_fatal_witness :
  let cl := mkCommandLine false ["A"] [] ["out.go"] ["./p"] in
  exists msg,
    main (exampleWorld false) 4 cl =
      Some [OpenFile "out.go" (Some (OsFile 0 "out.go")); Returned (Err msg);
            Exit 1 ("Error generating deep copy method: " +:+ msg)].
Proof.
  cbn zeta.
  pose proof (C8_malformed_output_is_fatal (exampleWorld false) 4
                (mkCommandLine false ["A"] [] ["out.go"] ["./p"])
                (mkOutputVal (Some (OsFile 0 "out.go")) "out.go")
                [OpenFile "out.go" (Some (OsFile 0 "out.go"))]
                "./p" examplePackage [] [0]) as H.
  cbn zeta in H. edestruct H as (_ & _ & _ & _ & Hmain & _).
  - reflexivity.
  - discriminate.
  - reflexivity.
  - reflexivity.
  - reflexivity.
  - vm_compute. reflexivity.
  - reflexivity.
  - eexists. exact Hmain.
Defined.

(** ** C9: when the output file is opened, truncated and closed *)

(** C9, as stated, at [-type A -o out.go ./q] where no package [./q]
    exists: the file is opened while the command line is parsed, before
    [run] is called; generation fails, and the run exits without closing
    it. *)
Lemma C9_opened_before_generation_never_closed :
  main (exampleWorld true) 1 (mkCommandLine false ["A"] [] ["out.go"] ["./q"]) =
    Some [OpenFile "out.go" (Some (OsFile 0 "out.go"));
          Returned (Err "loading package: cannot find package ./q");
          Exit 1 "Error generating deep copy method: loading package: cannot find package ./q"].
Proof. vm_compute. reflexivity. Qed.

Lemma afterParse_no_open outputF tail :
  afterParse outputF tail -> Forall (fun e => isOpenFile e = false) tail.
Proof. intros []; repeat constructor. Qed.

(** C9, amended.  In every run the file named by [-o] is opened while the
    command line is parsed, before generation starts, and nothing is opened
    later.  Only after generation has succeeded is the destination
    truncated (when it is a file; standard output is not), then written,
    and it is closed after a successful write only: when generation, the
    truncation or the write fails, the run exits and nothing is closed. *)
Theorem C9_output_lifecycle w fuel cl trace :
  main w fuel cl = Some trace -> lifecycle w cl trace.
Proof.
  unfold main, lifecycle.
  destruct (parseOutput w _ 0 (cl_o cl)) as [[outputF evs] err] eqn:Hparse.
  intros Hmain. exists outputF, evs, err.
  assert (Hevs := parseOutput_events _ _ _ _ _ _ _ Hparse).
  assert (Hshape : exists tail, trace = (evs ++ tail)%list /\ afterParse outputF tail).
  { destruct err as [err|].
    { injection Hmain as <-. eexists. split; [done|]. constructor. }
    destruct (_ || _).
    { injection Hmain as <-. eexists. split; [done|]. constructor. }
    destruct (negb _).
    { injection Hmain as <-. eexists. split; [done|]. constructor. }
    destruct (run w fuel _ _ _ _) as [[b|e]|]; cbn [mbind option_bind] in Hmain;
      [| |discriminate].
    - unfold outputVal_Open in Hmain. destruct (ov_file outputF) as [f|] eqn:Hf.
      + destruct (file_Truncate w f).
        * destruct (file_Write w f b); injection Hmain as <-;
            eexists; (split; [done|]); cbn [app fatal]; by constructor.
        * injection Hmain as <-. eexists. split; [done|]. cbn [app fatal].
          by constructor.
      + destruct (file_Write w Stdout b); injection Hmain as <-;
          eexists; (split; [done|]); cbn [app fatal]; by constructor.
    - injection Hmain as <-. eexists. split; [done|]. cbn [app fatal]. constructor. }
  destruct Hshape as (tail & -> & Htail). exists tail.
  repeat split; try done. by eapply afterParse_no_open.
Qed.

(** [main] returns whenever generation does: only a walk that needs more
    fuel keeps it from finishing. *)
Lemma main_returns w fuel cl :
  is_Some (run w fuel (default "" (cl_args cl !! 0)) (foldl typesVal_Set [] (cl_type cl))
               (foldl skipsVal_Set [] (cl_skip cl)) (cl_pointer_receiver cl)) ->
  is_Some (main w fuel cl).
Proof.
  intros [r Hrun]. unfold main.
  destruct (parseOutput w _ 0 (cl_o cl)) as [[outputF evs] [err|]]; [by eexists|].
  destruct (_ || _); [by eexists|].
  destruct (negb _); [by eexists|].
  rewrite Hrun. cbn [mbind option_bind].
  destruct r as [b|e]; [|by eexists].
  destruct (outputVal_Open w outputF) as [[f' evs'] [output|err]]; [|by eexists].
  destruct (file_Write w output b); by eexists.
Qed.

(** C9, amended, at [-type A -o out.go ./p]: opened during parsing;
    truncated, written and closed after generation. *)
Lemma C9_output_lifecycle_witness :
  lifecycle (exampleWorld true) (mkCommandLine false ["A"] [] ["out.go"] ["./p"])
    (let f := OsFile 0 "out.go" in
     let b := default "" (match run (exampleWorld true) 4 "./p" ["A"] [] false with
                          | Some (Ok b) => Some b
                          | _ => None
                          end) in
     [OpenFile "out.go" (Some f); Returned (Ok b); Truncate f true; Write f b true; Close f]).
Proof.
  apply (C9_output_lifecycle (exampleWorld true) 4). vm_compute. reflexivity.
Defined.

(** ** C10: the types the switch has no case for *)




(** A struct all of whose fields are of such types is copied by the
    shallow assignment alone: the generated method has no statement between
    its head and its foot. *)
Lemma walkFields_no_case tm fuel x skips G needExported source sink fields imports :
  Forall (fun f => hasCase (Underlying tm (var_type f)) = false
                   /\ reusedAt tm (var_type f) G false = false) fields ->
  walkFields (fun so si t imp => walkType tm (S fuel) so si x t imp skips G false)
             needExported source sink skips fields imports = Some ("", imports).
Proof.
  induction 1 as [|field rest [Hcase Hcheck] _ IH]; cbn [walkFields]; [done|].
  destruct (needExported && negb (var_exported field)); [done|].
  destruct (bool_decide _); [done|].
  assert (Hfield : forall so si,
             walkType tm (S fuel) so si x (var_type field) imports skips G false
             = Some ("", imports)).
  { intros so si. cbn [walkType]. rewrite (check_falls_through _ _ _ _ _ _ Hcheck).
    by destruct (Underlying tm (var_type field)). }
  rewrite Hfield. cbn [mbind option_bind]. by rewrite IH.
Qed.

Lemma shallow_struct_method tm fuel p obj fields imports skips pointer G :
  tm_underlying tm obj = Struct fields ->
  Forall (fun f => hasCase (Underlying tm (var_type f)) = false
                   /\ reusedAt tm (var_type f) G false = false) fields ->
  generateFunc tm (S (S fuel)) p obj imports skips pointer G =
    Some (methodHeader pointer (obj_name (tm_obj tm obj)) "o" +:+ methodFooter pointer,
          imports).
Proof.
  intros HU Hfields. unfold generateFunc.
  set (more := S fuel). cbn [walkType isMethoder negb andb Underlying]. rewrite HU.
  unfold more. by rewrite (walkFields_no_case _ _ _ _ _ _ _ _ _ _ Hfields).
Qed.

(** Arrays, functions, interfaces without a capability and basic types at
    work: the method of [Plain] is the shallow copy alone. *)
Lemma plain_is_shallow :
  generateFunc exampleTypes 2 examplePackage 16 ∅ ∅ false [Named 16] =
    Some (methodHeader false "Plain" "o" +:+ methodFooter false, ∅).
Proof. vm_compute. reflexivity. Qed.

(** * Further properties of the code *)

(** ** Locating the requested types *)

Lemma exprFilter_Some tm t sel x m :
  exprFilter tm t sel x = Some m <->
  objFromType t = Some m
  /\ obj_name (tm_obj tm m) = sel
  /\ exists pkg, obj_pkg (tm_obj tm m) = Some pkg /\ pkg_name pkg = x.
Proof.
  unfold exprFilter. destruct (objFromType t) as [d|].
  2: { split; [done|]. by intros [? _]. }
  destruct (obj_pkg (tm_obj tm d)) as [pkg|] eqn:Epkg.
  2: { split; [done|]. intros ([= <-] & _ & pkg & Hp & _). congruence. }
  destruct (String.eqb_spec x (pkg_name pkg)) as [Hx|Hx],
           (String.eqb_spec sel (obj_name (tm_obj tm d))) as [Hs|Hs]; cbn [negb orb].
  - split; [intros [= <-]; eauto|]. by intros ([= <-] & _).
  - split; [done|]. intros ([= <-] & Hn & _). congruence.
  - split; [done|]. intros ([= <-] & _ & pkg' & Hp & Hx'). congruence.
  - split; [done|]. intros ([= <-] & Hn & _). congruence.
Qed.

Lemma locateIn_Ok tm x sel defs m :
  locateIn tm x sel defs = Ok m ->
  exists t, Some t ∈ defs /\ exprFilter tm t sel x = Some m.
Proof.
  induction defs as [|[t|] defs IH]; cbn [locateIn]; [done| |].
  - destruct (exprFilter tm t sel x) as [m'|] eqn:E.
    + intros [= <-]. exists t. split; [apply list_elem_of_here|done].
    + intros H. destruct (IH H) as (t' & Hin & Ht'). exists t'.
      split; [by apply list_elem_of_further|done].
  - intros H. destruct (IH H) as (t' & Hin & Ht'). exists t'.
    split; [by apply list_elem_of_further|done].
Qed.

Lemma locateIn_Err tm x sel defs e :
  locateIn tm x sel defs = Err e ->
  e = "type not found" /\ forall t, Some t ∈ defs -> exprFilter tm t sel x = None.
Proof.
  induction defs as [|[t|] defs IH]; cbn [locateIn].
  - intros [= <-]. split; [done|]. intros t Hin. by apply elem_of_nil in Hin.
  - destruct (exprFilter tm t sel x) as [m'|] eqn:E; [done|].
    intros H. destruct (IH H) as [-> Hnone]. split; [done|].
    intros t' [[= ->]|Hin]%elem_of_cons; [done|by apply Hnone].
  - intros H. destruct (IH H) as [-> Hnone]. split; [done|].
    intros t' [[=]|Hin]%elem_of_cons. by apply Hnone.
Qed.

Lemma locateIn_none tm x sel defs :
  (forall t, Some t ∈ defs -> exprFilter tm t sel x = None) ->
  locateIn tm x sel defs = Err "type not found".
Proof.
  intros Hnone. destruct (locateIn tm x sel defs) as [m|e] eqn:E.
  - destruct (locateIn_Ok _ _ _ _ _ E) as (t & Hin & Ht). by rewrite (Hnone t Hin) in Ht.
  - by destruct (locateIn_Err _ _ _ _ _ E) as [-> _].
Qed.

(** X1.  A type [locateType] returns is a declared named type whose name
    is the selector and whose package is named as asked; it is the type,
    or the element type, of one of the objects the package defines. *)
Theorem X1_locateType_sound tm x sel p m :
  locateType tm x sel p = Ok m ->
  (exists t, Some t ∈ p_Defs p /\ objFromType t = Some m)
  /\ obj_name (tm_obj tm m) = sel
  /\ (exists pkg, obj_pkg (tm_obj tm m) = Some pkg /\ pkg_name pkg = x).
Proof.
  intros H. destruct (locateIn_Ok _ _ _ _ _ H) as (t & Hin & Ht).
  apply exprFilter_Some in Ht as (Hobj & Hname & Hpkg). eauto.
Qed.

(** X1 at the selector [B] in the example package. *)
Lemma X1_locateType_sound_witness :
  obj_name (tm_obj exampleTypes 1) = "B".
Proof.
  exact (proj1 (proj2 (X1_locateType_sound exampleTypes "p" "B" examplePackage 1 eq_refl))).
Defined.

(** X2.  [locateType] fails exactly when no defined object has the named
    type asked for as its type or element type, and its only error is
    [type not found]. *)
Theorem X2_locateType_not_found tm x sel p :
  (locateType tm x sel p = Err "type not found" <->
   forall t, Some t ∈ p_Defs p -> exprFilter tm t sel x = None)
  /\ (forall e, locateType tm x sel p = Err e -> e = "type not found").
Proof.
  split; [split|].
  - intros H. by destruct (locateIn_Err _ _ _ _ _ H).
  - apply locateIn_none.
  - intros e H. by destruct (locateIn_Err _ _ _ _ _ H).
Qed.

(** X3.  The objects a package defines are kept in a map, visited in no
    fixed order.  When the objects that match the selector all lead to one
    declaration, the order does not matter: [locateType] gives the same
    answer for every order. *)
Theorem X3_locateType_any_order tm x sel p p' :
  p_Defs p ≡ₚ p_Defs p' ->
  (forall t t' m m', Some t ∈ p_Defs p -> Some t' ∈ p_Defs p ->
     exprFilter tm t sel x = Some m -> exprFilter tm t' sel x = Some m' -> m = m') ->
  locateType tm x sel p = locateType tm x sel p'.
Proof.
  intros Hperm Huniq. unfold locateType.
  destruct (locateIn tm x sel (p_Defs p)) as [m|e] eqn:E.
  - destruct (locateIn_Ok _ _ _ _ _ E) as (t & Hin & Ht).
    destruct (locateIn tm x sel (p_Defs p')) as [m'|e'] eqn:E'.
    + destruct (locateIn_Ok _ _ _ _ _ E') as (t' & Hin' & Ht').
      rewrite <- Hperm in Hin'. by rewrite (Huniq _ _ _ _ Hin Hin' Ht Ht').
    + destruct (locateIn_Err _ _ _ _ _ E') as [_ Hnone].
      rewrite Hperm in Hin. by rewrite (Hnone _ Hin) in Ht.
  - destruct (locateIn_Err _ _ _ _ _ E) as [-> Hnone]. symmetry.
    apply locateIn_none. intros t Hin. apply Hnone. by rewrite Hperm.
Qed.

(** X3 in a package that defines a variable of type [*B] before the type
    [B] itself, against the package with the two the other way round. *)
Lemma X3_locateType_any_order_witness :
  locateType exampleTypes "p" "B" (mkPackage "p" [Some (Pointer (Named 1)); Some (Named 1)])
  = locateType exampleTypes "p" "B" (mkPackage "p" [Some (Named 1); Some (Pointer (Named 1))]).
Proof.
  apply X3_locateType_any_order.
  - apply Permutation_swap.
  - intros t t' m m' Hin Hin' Ht Ht'.
    apply exprFilter_Some in Ht as [Ht _]. apply exprFilter_Some in Ht' as [Ht' _].
    cbn [p_Defs] in Hin, Hin'.
    apply elem_of_cons in Hin as [[= ->]|[[= ->]|[]%elem_of_nil]%elem_of_cons];
      apply elem_of_cons in Hin' as [[= ->]|[[= ->]|[]%elem_of_nil]%elem_of_cons];
      vm_compute in Ht, Ht'; congruence.
Defined.

(** ** What [run] does with the requested types *)

Lemma locateAll_names tm p types objs :
  locateAll tm p types = Ok objs ->
  Forall2 (fun kind obj => obj_name (tm_obj tm obj) = kind) types objs.
Proof.
  revert objs. induction types as [|kind types IH]; intros objs; cbn [locateAll].
  - intros [= <-]. constructor.
  - destruct (locateType tm (p_Name p) kind p) as [obj|e] eqn:E; [|done].
    destruct (locateAll tm p types) as [objs'|e]; [|done].
    intros [= <-]. constructor; [|by apply IH].
    unfold locateType in E. destruct (locateIn_Ok _ _ _ _ _ E) as (t & _ & Ht).
    by apply exprFilter_Some in Ht as (_ & Hname & _).
Qed.

Lemma locateAll_first_missing tm p found kind rest objs e :
  locateAll tm p found = Ok objs ->
  locateType tm (p_Name p) kind p = Err e ->
  locateAll tm p (found ++ kind :: rest) =
    Err ("locating type " +:+ quoted kind +:+ " in " +:+ quoted (p_Name p) +:+ ": " +:+ e).
Proof.
  revert objs. induction found as [|k found IH]; intros objs; cbn [locateAll app].
  - intros _ ->. reflexivity.
  - destruct (locateType tm (p_Name p) k p) as [obj|e'] eqn:E; [|done].
    destruct (locateAll tm p found) as [objs'|e'] eqn:E'; [|done].
    intros _ Hkind. by rewrite (IH _ eq_refl Hkind).
Qed.

(** X4.  The requested types are all located before anything is
    generated: when one of them is missing, [run] fails with an error that
    names the first missing type, quoted as [%q] quotes it, and the
    package, whatever comes after it on the command line, whatever the skip
    sets and the receiver option, and without walking any type (no fuel is
    needed).  The selector is a text of ASCII characters. *)
Theorem X4_missing_type_stops_run w fuel path skips pointer p ps found kind rest objs :
  packages_Load w path = Ok (p :: ps) ->
  locateAll (go_types w) p found = Ok objs ->
  isASCII kind = true ->
  (forall t, Some t ∈ p_Defs p -> exprFilter (go_types w) t kind (p_Name p) = None) ->
  run w fuel path (found ++ kind :: rest) skips pointer =
    Some (Err ("locating type " +:+ quoted kind +:+ " in " +:+ quoted (p_Name p) +:+
               ": type not found")).
Proof.
  intros Hload Hfound _ Hnone. unfold run. rewrite Hload.
  by rewrite (locateAll_first_missing _ _ _ _ _ _ _ Hfound (locateIn_none _ _ _ _ Hnone)).
Qed.

(** X4 at three [-type] flags, the second selector being an [a], a double
    quote and a [b], with no fuel at all: the quote in the selector is
    written with a backslash before it. *)
Lemma X4_missing_type_stops_run_witness :
  run (exampleWorld true) 0 "./p" ["A"; "a" +:+ dquote +:+ "b"; "B"] [] false =
    Some (Err ("locating type " +:+
               dquote +:+ "a" +:+ backslash +:+ dquote +:+ "b" +:+ dquote +:+
               " in " +:+ dquote +:+ "p" +:+ dquote +:+ ": type not found")).
Proof.
  etransitivity;
    [apply (X4_missing_type_stops_run (exampleWorld true) 0 "./p" [] false examplePackage []
              ["A"] ("a" +:+ dquote +:+ "b") ["B"] [0] eq_refl eq_refl eq_refl)
    |vm_compute; reflexivity].
  intros t Hin. cbn [p_Defs examplePackage] in Hin.
  repeat (apply elem_of_cons in Hin as [Heq|Hin];
          [first [discriminate Heq | injection Heq as ->; vm_compute; reflexivity]|]).
  by apply elem_of_nil in Hin.
Defined.

Lemma generateAll_skips_ext tm fuel p objs : forall i skips skips' pointer G imports,
  (forall j, j < length objs ->
     default ∅ (skips !! (i + j)) = default (∅ : gset string) (skips' !! (i + j))) ->
  generateAll tm fuel p objs i skips pointer G imports =
  generateAll tm fuel p objs i skips' pointer G imports.
Proof.
  induction objs as [|obj rest IH]; intros i skips skips' pointer G imports Hsame;
    cbn [generateAll]; [done|].
  pose proof (Hsame 0 ltac:(cbn; lia)) as H0. rewrite Nat.add_0_r in H0. rewrite H0.
  destruct (generateFunc tm fuel p obj imports _ pointer G) as [[fn i1]|]; [|done].
  cbn [mbind option_bind]. rewrite (IH (S i) skips skips'); [done|].
  intros j Hj. replace (S i + j) with (i + S j) by lia. apply Hsame. cbn. lia.
Qed.

Lemma locateAll_length tm p types objs :
  locateAll tm p types = Ok objs -> length objs = length types.
Proof. intros H. symmetry. by eapply Forall2_length, locateAll_names. Qed.

(** Two lists of skip sets that agree at the positions of the requested
    types, taking a missing set as empty, give the same run. *)
Lemma run_skips_agree w fuel path types skips skips' pointer :
  (forall i, i < length types ->
     default ∅ (skips !! i) = default (∅ : gset string) (skips' !! i)) ->
  run w fuel path types skips pointer = run w fuel path types skips' pointer.
Proof.
  intros Hsame. unfold run.
  destruct (packages_Load w path) as [[|p ps]|e]; [done| |done].
  destruct (locateAll (go_types w) p types) as [objs|e] eqn:E; [|done].
  rewrite (generateAll_skips_ext _ _ _ _ 0 skips skips'); [done|].
  intros j Hj. apply Hsame. by rewrite <- (locateAll_length _ _ _ _ E).
Qed.

(** The second loop of [run] from the index [k] on, one turn at a time:
    [tables] are the import tables between the turns. *)
Lemma generateAll_turns tm fuel p objs : forall k skips pointer G imports fns imports',
  generateAll tm fuel p objs k skips pointer G imports = Some (fns, imports') ->
  exists tables : list (gmap string string),
    length tables = S (length objs)
    /\ tables !! 0 = Some imports
    /\ tables !! length objs = Some imports'
    /\ forall i obj, objs !! i = Some obj ->
         exists before after fn,
           tables !! i = Some before /\ tables !! S i = Some after /\ fns !! i = Some fn
           /\ generateFunc tm fuel p obj before (default ∅ (skips !! (k + i))) pointer G =
                Some (fn, after).
Proof.
  induction objs as [|obj rest IH]; intros k skips pointer G imports fns imports';
    cbn [generateAll].
  - intros [= <- <-]. exists [imports]. repeat split. intros i obj Hi. by destruct i.
  - destruct (generateFunc tm fuel p obj imports _ pointer G) as [[fn i1]|] eqn:Efn; [|done].
    cbn [mbind option_bind].
    destruct (generateAll tm fuel p rest (S k) skips pointer G i1) as [[fns0 i2]|] eqn:E;
      [|done].
    cbn [mbind option_bind]. intros [= <- <-].
    destruct (IH _ _ _ _ _ _ _ E) as (tables & Hlen & Hfirst & Hlast & Hturn).
    exists (imports :: tables). split; [cbn; by rewrite Hlen|].
    split; [done|]. split; [exact Hlast|].
    intros [|i] obj' Hi.
    + injection Hi as <-. exists imports, i1, fn. rewrite Nat.add_0_r. by repeat split.
    + destruct (Hturn i obj' Hi) as (before & after & fn' & Hb & Ha & Hf & Hgen).
      exists before, after, fn'. replace (k + S i) with (S k + i) by lia. by repeat split.
Qed.

(** X5.  Skip sets apply by position: the [i]-th method is what
    [generateFunc] gives for the [i]-th requested type with the [i]-th skip
    set, or with the empty set when there are fewer than [i+1] skip sets,
    from the import table the methods before it left.  No other skip set
    has a part in it, and the sets beyond the number of types are not
    read. *)
Theorem X5_skips_by_position tm fuel p objs skips pointer G imports fns imports' :
  generateAll tm fuel p objs 0 skips pointer G imports = Some (fns, imports') ->
  exists tables : list (gmap string string),
    length tables = S (length objs)
    /\ tables !! 0 = Some imports
    /\ tables !! length objs = Some imports'
    /\ forall i obj, objs !! i = Some obj ->
         exists before after fn,
           tables !! i = Some before /\ tables !! S i = Some after /\ fns !! i = Some fn
           /\ generateFunc tm fuel p obj before (default ∅ (skips !! i)) pointer G =
                Some (fn, after).
Proof. apply generateAll_turns. Qed.

(** X5 at [-type A -type B -skip Next]: the method of [A] is generated
    with the set of [Next], the method of [B] with the empty set. *)
Lemma X5_skips_by_position_witness :
  exists fns imports' fnA fnB,
    generateAll exampleTypes 3 examplePackage [0; 1] 0 [{["Next"]}] false
                [Named 0; Named 1] ∅ = Some (fns, imports')
    /\ fns !! 0 = Some fnA /\ fns !! 1 = Some fnB
    /\ (exists before after,
          generateFunc exampleTypes 3 examplePackage 0 before {["Next"]} false
                       [Named 0; Named 1] = Some (fnA, after))
    /\ (exists before after,
          generateFunc exampleTypes 3 examplePackage 1 before ∅ false
                       [Named 0; Named 1] = Some (fnB, after)).
Proof.
  destruct (generateAll exampleTypes 3 examplePackage [0; 1] 0 [{["Next"]}] false
              [Named 0; Named 1] ∅) as [[fns imports']|] eqn:E;
    [|vm_compute in E; discriminate E].
  destruct (X5_skips_by_position _ _ _ _ _ _ _ _ _ _ E) as (tables & _ & _ & _ & Hturn).
  destruct (Hturn 0 0 eq_refl) as (b0 & a0 & fnA & _ & _ & HfA & HgA).
  destruct (Hturn 1 1 eq_refl) as (b1 & a1 & fnB & _ & _ & HfB & HgB).
  exists fns, imports', fnA, fnB. split; [reflexivity|]. split; [exact HfA|].
  split; [exact HfB|]. split; [by exists b0, a0 | by exists b1, a1].
Defined.

Lemma generateAll_methods tm fuel p objs : forall i skips pointer G imports fns imports',
  generateAll tm fuel p objs i skips pointer G imports = Some (fns, imports') ->
  Forall2 (fun obj fn => exists body,
             fn = methodHeader pointer (obj_name (tm_obj tm obj)) "o" +:+ body +:+
                  methodFooter pointer) objs fns.
Proof.
  induction objs as [|obj rest IH]; intros i skips pointer G imports fns imports';
    cbn [generateAll].
  - intros [= <- <-]. constructor.
  - unfold generateFunc at 1.
    destruct (walkType tm fuel _ _ _ _ imports _ G true) as [[body i1]|]; [|done].
    cbn [mbind option_bind].
    destruct (generateAll tm fuel p rest _ _ _ _ i1) as [[fns' i2]|] eqn:E; [|done].
    cbn [mbind option_bind]. intros [= <- <-]. constructor; [by exists body|].
    by eapply IH.
Qed.

(** X6.  A run that generates gives one method per requested type, in the
    order of the request: the [i]-th method is a [DeepCopy] method on the
    type named by the [i]-th selector, of the receiver shape configured for
    the run, and ends with the return of the copy in that shape. *)
Theorem X6_one_method_per_type tm fuel p types objs skips pointer G imports fns imports' :
  locateAll tm p types = Ok objs ->
  generateAll tm fuel p objs 0 skips pointer G imports = Some (fns, imports') ->
  length fns = length types
  /\ forall i kind fn,
       types !! i = Some kind -> fns !! i = Some fn ->
       exists body, fn = methodHeader pointer kind "o" +:+ body +:+ methodFooter pointer.
Proof.
  intros Hloc Hgen.
  pose proof (locateAll_names _ _ _ _ Hloc) as Hnames.
  pose proof (generateAll_methods _ _ _ _ _ _ _ _ _ _ _ Hgen) as Hfns.
  split.
  - rewrite <- (Forall2_length _ _ _ Hfns). symmetry. by eapply Forall2_length.
  - intros i kind fn Hkind Hfn.
    destruct (Forall2_lookup_l _ _ _ _ _ Hnames Hkind) as (obj & Hobj & Hname).
    destruct (Forall2_lookup_lr _ _ _ _ _ _ Hfns Hobj Hfn) as [body ->].
    exists body. by rewrite Hname.
Qed.

(** X6 at [-type A -type B], pointer receivers: two methods, the second
    on [*B]. *)
Lemma X6_one_method_per_type_witness :
  exists fns imports',
    generateAll exampleTypes 3 examplePackage [0; 1] 0 [] true [Named 0; Named 1] ∅ =
      Some (fns, imports')
    /\ length fns = 2
    /\ exists fn body,
         fns !! 1 = Some fn
         /\ fn = methodHeader true "B" "o" +:+ body +:+ methodFooter true.
Proof.
  destruct (generateAll exampleTypes 3 examplePackage [0; 1] 0 [] true [Named 0; Named 1] ∅)
    as [[fns imports']|] eqn:E; [|vm_compute in E; discriminate E].
  destruct (X6_one_method_per_type exampleTypes 3 examplePackage ["A"; "B"] [0; 1] [] true
              [Named 0; Named 1] ∅ fns imports' eq_refl E) as [Hlen H].
  exists fns, imports'. split; [reflexivity|]. split; [exact Hlen|].
  destruct (fns !! 1) as [fn|] eqn:Hfn.
  - destruct (H 1 "B" fn eq_refl Hfn) as [body Hbody]. by exists fn, body.
  - apply lookup_ge_None_1 in Hfn. rewrite Hlen in Hfn. cbn in Hfn. lia.
Defined.

(** X7.  The run-wide receiver option reaches the first lines and the
    last line of each method only: with the option on or off the run
    generates for the same inputs, the import table is the same, and the
    two texts of a method have the same body between header and footer. *)
Theorem X7_receiver_option_frames_only tm fuel p objs : forall i skips G imports pointer fns imports',
  generateAll tm fuel p objs i skips pointer G imports = Some (fns, imports') ->
  exists fns',
    generateAll tm fuel p objs i skips (negb pointer) G imports = Some (fns', imports')
    /\ Forall2 (fun fn fn' => exists kind body,
                  fn = methodHeader pointer kind "o" +:+ body +:+ methodFooter pointer
                  /\ fn' = methodHeader (negb pointer) kind "o" +:+ body +:+
                           methodFooter (negb pointer)) fns fns'.
Proof.
  induction objs as [|obj rest IH]; intros i skips G imports pointer fns imports';
    cbn [generateAll].
  - intros [= <- <-]. by exists [].
  - unfold generateFunc.
    destruct (walkType tm fuel _ _ _ _ imports _ G true) as [[body i1]|]; [|done].
    cbn [mbind option_bind].
    destruct (generateAll tm fuel p rest _ _ pointer _ i1) as [[fns0 i2]|] eqn:E; [|done].
    cbn [mbind option_bind]. intros [= <- <-].
    destruct (IH _ _ _ _ _ _ _ E) as (fns' & -> & Hall). cbn [mbind option_bind].
    eexists. split; [reflexivity|]. constructor; [|done]. by eexists _, body.
Qed.

(** X7 at [-type A -type B], from value receivers to pointer receivers. *)
Lemma X7_receiver_option_frames_only_witness :
  exists (fns fns' : list string) imports',
    generateAll exampleTypes 3 examplePackage [0; 1] 0 [] true [Named 0; Named 1] ∅ =
      Some (fns', imports')
    /\ length fns = length fns'.
Proof.
  destruct (generateAll exampleTypes 3 examplePackage [0; 1] 0 [] false [Named 0; Named 1] ∅)
    as [[fns imports']|] eqn:E; [|vm_compute in E; discriminate E].
  destruct (X7_receiver_option_frames_only _ _ _ _ _ _ _ _ _ _ _ E) as (fns' & Hgen & Hall).
  exists fns, fns', imports'. split; [exact Hgen|]. by eapply Forall2_length.
Defined.

(** ** Capability detection *)

(** X8.  For a type outside the generation set, method names being
    distinct as in every Go type, a capability is detected exactly when the
    type has a method named [DeepCopy] with no parameter and one result
    whose type, after [reducePointer], is identical to the receiver type
    after [reducePointer]; the shape reported is whether [reducePointer]
    reduced the result.  The shape asked for plays no part. *)
Theorem X8_capability_outside_generation tm v G p isP :
  existsb (Identical v) G = false ->
  NoDup (fn_name <$> methodsOf tm v) ->
  hasDeepCopy tm v G p = (true, isP) <->
  exists m ret,
    m ∈ methodsOf tm v /\ fn_name m = "DeepCopy" /\ fn_params m = [] /\ fn_results m = [ret]
    /\ Identical (fst (reducePointer ret)) (fst (reducePointer (recvType v m))) = true
    /\ isP = snd (reducePointer ret).
Proof.
  intros Hout Hnd. rewrite (hasDeepCopy_outside _ _ _ _ Hout).
  by apply scanMethods_found.
Qed.

(** X8 at [P] with [func (p *P) DeepCopy() *P]: found, of pointer shape. *)
Lemma X8_capability_outside_generation_witness :
  hasDeepCopy exampleTypes (Named 13) [] false = (true, true).
Proof.
  apply (X8_capability_outside_generation exampleTypes (Named 13) [] false true eq_refl).
  - cbn. apply NoDup_singleton.
  - exists (deepCopyMethod (Pointer (Named 13)) (Pointer (Named 13))), (Pointer (Named 13)).
    repeat split. apply list_elem_of_here.
Defined.

(** ** The struct case *)

Lemma walkFields_visited walk needExported source sink skips fields : forall imports,
  walkFields walk needExported source sink skips fields imports =
  walkFields walk false source sink skips
             (List.filter (visited needExported sink skips) fields) imports.
Proof.
  induction fields as [|field rest IH]; intros imports; [done|].
  cbn [walkFields List.filter]. unfold visited at 1.
  destruct (needExported && negb (var_exported field)); cbn [negb andb]; [apply IH|].
  destruct (bool_decide (afterFirstDot (sink +:+ "." +:+ var_name field) ∈ skips)) eqn:E;
    cbn [negb]; [apply IH|].
  cbn [walkFields andb]. rewrite E.
  destruct (walk _ _ _ imports) as [[out i1]|]; [|done]. cbn [mbind option_bind].
  by rewrite IH.
Qed.

(** X9.  The struct case treats a field it passes over as if the struct
    did not have it: for a struct type on which the capability check does
    not fire, the walk is the walk of the unnamed struct type that keeps,
    in order, only the fields that are not skipped and, when the type is
    declared in another package, are exported. *)
Theorem X9_passed_fields_as_absent tm fuel source sink x m fields imports skips G initial :
  Underlying tm m = Struct fields ->
  reusedAt tm m G initial = false ->
  walkType tm fuel source sink x m imports skips G initial =
  walkType tm fuel source sink x
           (Struct (List.filter (visited (needsExported tm x m) sink skips) fields))
           imports skips G initial.
Proof.
  intros HU Hno. destruct fuel as [|fuel]; [done|].
  cbn [walkType]. rewrite (check_falls_through _ _ _ _ _ _ Hno), HU.
  cbn [isMethoder andb Underlying needsExported].
  apply walkFields_visited.
Qed.

(** X9 at the type [Time] of the standard package [time], walked from
    package [p]: its one field is unexported. *)
Lemma X9_passed_fields_as_absent_witness :
  walkType exampleTypes 2 "o.At" "cp.At" "p" (Named 10) ∅ ∅ [] false =
  walkType exampleTypes 2 "o.At" "cp.At" "p" (Struct []) ∅ ∅ [] false.
Proof.
  exact (X9_passed_fields_as_absent exampleTypes 2 "o.At" "cp.At" "p" (Named 10)
           [mkVar "wall" false int] ∅ ∅ [] false eq_refl eq_refl).
Defined.

(** ** The import table *)

(** A relation between import tables that every call of [getElemType]
    establishes, and that is reflexive and transitive, holds between the
    table a walk is given and the table it leaves. *)
Section ImportsInvariant.
Context (tm : TypeModel) (x : string) (R : relation (gmap string string)).
Hypothesis R_refl : forall i, R i i.
Hypothesis R_trans : forall i j k, R i j -> R j k -> R i k.
Hypothesis R_elem : forall t i rawkind, R i (snd (getElemType tm t x i rawkind)).

Lemma walkFields_imports_rel walk needExported source sink skips fields :
  (forall so si t i out i', walk so si t i = Some (out, i') -> R i i') ->
  forall imports out imports',
    walkFields walk needExported source sink skips fields imports = Some (out, imports') ->
    R imports imports'.
Proof.
  intros Hwalk. induction fields as [|field rest IH]; intros imports out imports';
    cbn [walkFields].
  - intros [= _ <-]. apply R_refl.
  - destruct (needExported && negb (var_exported field)); [apply IH|].
    destruct (bool_decide _); [apply IH|].
    destruct (walk _ _ _ imports) as [[o1 i1]|] eqn:E1; [|done]. cbn [mbind option_bind].
    destruct (walkFields walk _ _ _ _ rest i1) as [[o2 i2]|] eqn:E2; [|done].
    cbn [mbind option_bind]. intros [= _ <-].
    eapply R_trans; [by eapply Hwalk | by eapply IH].
Qed.

Lemma walkType_imports_rel fuel : forall source sink m imports skips G initial out imports',
  walkType tm fuel source sink x m imports skips G initial = Some (out, imports') ->
  R imports imports'.
Proof.
  induction fuel as [|fuel IH]; intros source sink m imports skips G initial out imports';
    [done|].
  cbn [walkType].
  destruct (if isMethoder m && negb initial then _ else _) as [call [|]].
  { intros [= _ <-]. apply R_refl. }
  destruct (Underlying tm m) as [| |elem|elem| |d elem|key elem|fields| |];
    try (intros [= _ <-]; apply R_refl).
  - destruct (if isMethoder elem && negb initial then _ else _) as [call' [|]].
    { intros [= _ <-]. apply R_refl. }
    pose proof (R_elem elem imports true) as He.
    destruct (getElemType tm elem x imports true) as [kind i1]. cbn [snd] in He.
    destruct (walkType tm fuel _ _ _ elem i1 _ _ _) as [[o1 i2]|] eqn:E; [|done].
    cbn [mbind option_bind]. intros [= _ <-].
    eapply R_trans; [exact He | by eapply IH].
  - pose proof (R_elem elem imports false) as He.
    destruct (getElemType tm elem x imports false) as [kind i1]. cbn [snd] in He.
    destruct (bool_decide _); cbn [mbind option_bind].
    + by intros [= _ <-].
    + destruct (walkType tm fuel _ _ _ elem i1 _ _ _) as [[o1 i2]|] eqn:E; [|done].
      cbn [mbind option_bind]. intros [= _ <-].
      eapply R_trans; [exact He | by eapply IH].
  - pose proof (R_elem elem imports false) as He.
    destruct (getElemType tm elem x imports false) as [kind i1]. cbn [snd] in He.
    by intros [= _ <-].
  - pose proof (R_elem key imports false) as Hk.
    destruct (getElemType tm key x imports false) as [kkind i1]. cbn [snd] in Hk.
    pose proof (R_elem elem i1 false) as He.
    destruct (getElemType tm elem x i1 false) as [vkind i2]. cbn [snd] in He.
    assert (H12 : R imports i2) by (by eapply R_trans).
    destruct (bool_decide _); cbn [mbind option_bind].
    + by intros [= _ <-].
    + destruct (walkType tm fuel _ _ _ key i2 _ _ _) as [[kb i3]|] eqn:Ek; [|done].
      cbn [mbind option_bind].
      destruct (nonEmpty kb);
        (destruct (walkType tm fuel _ _ _ elem i3 _ _ _) as [[vb i4]|] eqn:Ev; [|done]);
        cbn [mbind option_bind]; (destruct (nonEmpty vb)); intros [= _ <-];
        (eapply R_trans; [exact H12|]); (eapply R_trans; [by eapply IH | by eapply IH]).
  - apply walkFields_imports_rel. intros so si t i o i'. apply IH.
Qed.

Lemma generateAll_imports_rel fuel p objs : forall i skips pointer G imports fns imports',
  p_Name p = x ->
  generateAll tm fuel p objs i skips pointer G imports = Some (fns, imports') ->
  R imports imports'.
Proof.
  induction objs as [|obj rest IH]; intros i skips pointer G imports fns imports' Hx;
    cbn [generateAll].
  - intros [= _ <-]. apply R_refl.
  - unfold generateFunc. rewrite Hx.
    destruct (walkType tm fuel _ _ _ _ imports _ G true) as [[body i1]|] eqn:E1; [|done].
    cbn [mbind option_bind].
    destruct (generateAll tm fuel p rest _ _ _ _ i1) as [[fns0 i2]|] eqn:E2; [|done].
    cbn [mbind option_bind]. intros [= _ <-].
    eapply R_trans; [by eapply walkType_imports_rel | by eapply IH].
Qed.
End ImportsInvariant.

Lemma getElemType_table tm t x imports rawkind :
  snd (getElemType tm t x imports rawkind) = imports
  \/ exists obj pkg,
       obj_pkg (tm_obj tm obj) = Some pkg /\ pkg_name pkg <> x
       /\ snd (getElemType tm t x imports rawkind) =
          <[aliasFor imports pkg := pkg_path pkg]> imports.
Proof.
  unfold getElemType. destruct (objFromType t) as [obj|]; [|by left].
  destruct (obj_pkg (tm_obj tm obj)) as [pkg|] eqn:Epkg; [|by left].
  destruct (String.eqb_spec (pkg_name pkg) x) as [Heq|Hne]; cbn [negb]; [by left|].
  right. by exists obj, pkg.
Qed.

Lemma aliasFor_cases imports pkg :
  aliasFor imports pkg = pkg_name pkg
  \/ aliasFor imports pkg = replaceChar "/"%char "_"%char (pkg_path pkg).
Proof.
  unfold aliasFor. destruct (imports !! pkg_name pkg) as [path|]; [|by left].
  destruct (negb _); [by right | by left].
Qed.

(** X10.  A run never removes an alias from the import table: every alias
    bound when the generation of the methods starts, or bound while a
    method is generated, is still bound when the last method is done (to
    which path is another matter: a binding can be overwritten). *)
Theorem X10_aliases_are_kept tm fuel p objs i skips pointer G imports fns imports' :
  generateAll tm fuel p objs i skips pointer G imports = Some (fns, imports') ->
  dom imports ⊆ dom imports'.
Proof.
  apply (generateAll_imports_rel tm (p_Name p) (fun i j => dom i ⊆ dom j)); [done| |
    |reflexivity].
  - intros i0 j k Hij Hjk. by transitivity (dom j).
  - intros t i0 rawkind.
    destruct (getElemType_table tm t (p_Name p) i0 rawkind) as [->|(obj & pkg & _ & _ & ->)];
      [done|]. apply dom_insert_subseteq.
Qed.

(** X10 at [-type Event], the table holding an alias already. *)
Lemma X10_aliases_are_kept_witness :
  exists fns imports',
    generateAll exampleTypes 4 examplePackage [11] 0 [] false [Named 11]
                {["fmt" := "fmt"]} = Some (fns, imports')
    /\ "fmt" ∈ dom imports'.
Proof.
  destruct (generateAll exampleTypes 4 examplePackage [11] 0 [] false [Named 11]
              {["fmt" := "fmt"]}) as [[fns imports']|] eqn:E;
    [|vm_compute in E; discriminate E].
  exists fns, imports'. split; [reflexivity|].
  apply (X10_aliases_are_kept _ _ _ _ _ _ _ _ _ _ _ E).
  rewrite dom_singleton. by apply elem_of_singleton.
Defined.

(** X11.  Only packages other than the current one are imported: starting
    from the empty table, every entry of the table a run leaves binds the
    name of a package a walked type is declared in, or the path of that
    package with its slashes replaced by underscores, to the path of that
    package, and the name of that package is not the name of the package
    the methods are generated for. *)
Theorem X11_only_foreign_packages_imported tm fuel p objs i skips pointer G fns imports' :
  generateAll tm fuel p objs i skips pointer G ∅ = Some (fns, imports') ->
  forall k v, imports' !! k = Some v -> foreignBinding tm (p_Name p) k v.
Proof.
  intros Hgen.
  assert (H : forall k v, imports' !! k = Some v ->
                (∅ : gmap string string) !! k = Some v \/ foreignBinding tm (p_Name p) k v).
  { revert Hgen.
    apply (generateAll_imports_rel tm (p_Name p)
             (fun i j => forall k v, j !! k = Some v ->
                           i !! k = Some v \/ foreignBinding tm (p_Name p) k v));
      [by left| | |reflexivity].
    - intros i0 j l Hij Hjl k v Hk.
      destruct (Hjl k v Hk) as [Hj|Hf]; [by apply Hij | by right].
    - intros t i0 rawkind k v.
      destruct (getElemType_table tm t (p_Name p) i0 rawkind)
        as [->|(obj & pkg & Hpkg & Hne & ->)]; [by left|].
      destruct (decide (k = aliasFor i0 pkg)) as [->|Hk].
      + rewrite lookup_insert_eq. intros [= <-]. right. exists obj, pkg.
        repeat split; [done..|]. apply aliasFor_cases.
      + rewrite lookup_insert_ne by done. by left. }
  intros k v Hk. destruct (H k v Hk) as [Hempty|Hf]; [|done].
  by rewrite lookup_empty in Hempty.
Qed.

(** X11 at [-type Event]: the table binds [time] and nothing of [p]. *)
Lemma X11_only_foreign_packages_imported_witness :
  exists fns imports',
    generateAll exampleTypes 4 examplePackage [11] 0 [] false [Named 11] ∅ =
      Some (fns, imports')
    /\ imports' !! "time" = Some "time"
    /\ foreignBinding exampleTypes "p" "time" "time".
Proof.
  destruct (generateAll exampleTypes 4 examplePackage [11] 0 [] false [Named 11] ∅)
    as [[fns imports']|] eqn:E; [|vm_compute in E; discriminate E].
  exists fns, imports'. split; [reflexivity|].
  assert (Hk : imports' !! "time" = Some "time").
  { vm_compute in E. injection E as _ <-. reflexivity. }
  split; [exact Hk|].
  exact (X11_only_foreign_packages_imported _ _ _ _ _ _ _ _ _ _ E _ _ Hk).
Defined.

(** ** Selectors and the names of temporaries *)

Lemma hasChar_app c a b : hasChar c (a +:+ b) = hasChar c a || hasChar c b.
Proof.
  induction a as [|d a IH]; [done|].
  change (hasChar c (String d (a +:+ b)) = hasChar c (String d a) || hasChar c b).
  cbn [hasChar]. rewrite IH. by rewrite orb_assoc.
Qed.

Lemma hasChar_removeChar c old s :
  hasChar c (removeChar old s) = hasChar c s && negb (Ascii.eqb c old).
Proof.
  induction s as [|d s IH]; [done|]. cbn [removeChar hasChar].
  destruct (Ascii.eqb_spec d old) as [->|Hd]; cbn [hasChar]; rewrite IH.
  - destruct (Ascii.eqb_spec old c) as [->|Hc]; cbn [orb]; [|done].
    rewrite Ascii.eqb_refl. by destruct (hasChar c s).
  - destruct (Ascii.eqb_spec d c) as [->|Hc]; cbn [orb]; [|done].
    destruct (Ascii.eqb_spec c old) as [->|_]; [done|]. by destruct (hasChar c s).
Qed.

Lemma hasChar_mapChars c f s :
  hasChar c (mapChars f s) = true -> exists d, hasChar d s = true /\ f d = c.
Proof.
  induction s as [|d s IH]; [done|]. cbn [mapChars hasChar].
  destruct (Ascii.eqb_spec (f d) c) as [Hd|_]; cbn [orb].
  - intros _. exists d. by rewrite Ascii.eqb_refl.
  - intros H. destruct (IH H) as (e & He & Hfe). exists e. by rewrite He, orb_true_r.
Qed.

Lemma selToIdent_chars sink c :
  hasChar c (selToIdent sink) = true ->
  c <> "["%char /\ c <> "]"%char /\ c <> "."%char
  /\ (c = "_"%char \/ hasChar c sink = true).
Proof.
  intros Hc. unfold selToIdent in Hc.
  apply hasChar_mapChars in Hc as (d & Hd & Hfd).
  rewrite hasChar_removeChar in Hd. apply andb_true_iff in Hd as [Hd Hnot].
  destruct (Ascii.eqb_spec d "]") as [|H1]; [done|].
  destruct (Ascii.eqb_spec d "[") as [|H2];
    [subst c; repeat split; [discriminate..|by left]|].
  destruct (Ascii.eqb_spec d ".") as [|H3];
    [subst c; repeat split; [discriminate..|by left]|].
  subst c. repeat split; [done..|by right].
Qed.

Lemma selToIdent_flat sink c :
  c = "["%char \/ c = "]"%char \/ c = "."%char -> hasChar c (selToIdent sink) = false.
Proof.
  intros Hc. destruct (hasChar c (selToIdent sink)) eqn:E; [|done].
  destruct (selToIdent_chars _ _ E) as (? & ? & ? & _). by destruct Hc as [|[|]].
Qed.

(** X12.  The name of a map temporary is flat: [selToIdent] leaves no
    bracket and no dot in a sink expression, and every other character of
    its result is an underscore or a character of the expression. *)
Theorem X12_temporary_names_are_flat sink :
  hasChar "[" (selToIdent sink) = false
  /\ hasChar "]" (selToIdent sink) = false
  /\ hasChar "." (selToIdent sink) = false
  /\ forall c, hasChar c (selToIdent sink) = true -> c = "_"%char \/ hasChar c sink = true.
Proof.
  repeat split; try (apply selToIdent_flat; by auto).
  intros c Hc. by destruct (selToIdent_chars _ _ Hc) as (_ & _ & _ & ?).
Qed.

Lemma afterFirstDot_flat sink rest :
  hasChar "." sink = false -> afterFirstDot (sink +:+ "." +:+ rest) = rest.
Proof.
  unfold afterFirstDot. induction sink as [|c sink IH]; [done|].
  cbn [hasChar]. intros [Hc Hs]%orb_false_iff.
  change (match dropToDot (String c (sink +:+ "." +:+ rest)) with
          | Some r => r | None => String c (sink +:+ "." +:+ rest) end = rest).
  cbn [dropToDot]. rewrite Hc.
  specialize (IH Hs). destruct (dropToDot (sink +:+ "." +:+ rest)) as [r|] eqn:E; [done|].
  exfalso. clear -E. induction sink as [|d sink IH]; [done|].
  change (dropToDot (String d (sink +:+ "." +:+ rest)) = None) in E. cbn [dropToDot] in E.
  destruct (Ascii.eqb d "."); [done | by apply IH].
Qed.

(** X13.  Under a sink without a dot the selector of a field is the bare
    name of the field.  The sinks without a dot are the copy [cp] of the
    top level and the temporaries of the map case; so the fields of a
    struct that is the key or the value of a map, at any depth, are passed
    over by the same selectors as the fields of the top-level struct. *)
Theorem X13_map_entry_fields_by_bare_name needExported sink suffix skips fields :
  hasChar "." suffix = false ->
  List.filter (visited needExported (selToIdent sink +:+ suffix) skips) fields =
  List.filter (visited needExported "cp" skips) fields
  /\ forall field, visited needExported "cp" skips field =
       negb (needExported && negb (var_exported field))
       && negb (bool_decide (var_name field ∈ skips)).
Proof.
  intros Hsuffix.
  assert (Hflat : hasChar "." (selToIdent sink +:+ suffix) = false).
  { rewrite hasChar_app, Hsuffix, selToIdent_flat; [done | by auto]. }
  split; [|done].
  induction fields as [|field rest IH]; [done|]. cbn [List.filter]. rewrite IH.
  unfold visited. rewrite (afterFirstDot_flat _ _ Hflat).
  by rewrite (afterFirstDot_flat "cp" (var_name field)).
Qed.

(** X13 at the value temporary of the map [cp.M]: the selector [N] passes
    over the field [N] of the values as it does at the top level. *)
Lemma X13_map_entry_fields_by_bare_name_witness :
  List.filter (visited false (selToIdent "cp.M" +:+ "_v") {["N"]})
              [mkVar "N" true int; mkVar "K" true int] =
  List.filter (visited false "cp" {["N"]}) [mkVar "N" true int; mkVar "K" true int].
Proof.
  exact (proj1 (X13_map_entry_fields_by_bare_name false "cp.M" "_v" {["N"]}
                  [mkVar "N" true int; mkVar "K" true int] eq_refl)).
Defined.

(** ** The flags *)

Lemma append_nil_r (s : string) : s +:+ "" = s.
Proof.
  induction s as [|c s IH]; [done|]. change (String c (s +:+ "") = String c s). by rewrite IH.
Qed.

Lemma splitComma_join v : forall cur,
  String.concat "," (splitComma cur v) = cur +:+ v.
Proof.
  induction v as [|c v IH]; intros cur; cbn [splitComma].
  - cbn. by rewrite append_nil_r.
  - destruct (Ascii.eqb_spec c ",") as [->|Hc].
    + specialize (IH ""). destruct (splitComma "" v) as [|part parts] eqn:E.
      { by destruct v as [|d v]; [|cbn in E; destruct (Ascii.eqb d ",")]. }
      change (cur +:+ "," +:+ String.concat "," (part :: parts) = cur +:+ String "," v).
      by rewrite IH.
    + rewrite IH, append_assoc. reflexivity.
Qed.

Lemma splitComma_parts v : forall cur,
  hasChar "," cur = false ->
  Forall (fun part => hasChar "," part = false) (splitComma cur v).
Proof.
  induction v as [|c v IH]; intros cur Hcur; cbn [splitComma].
  - by constructor.
  - destruct (Ascii.eqb_spec c ",") as [->|Hc].
    + constructor; [done | by apply IH].
    + apply IH. rewrite hasChar_app, Hcur. cbn.
      by destruct (Ascii.eqb_spec c ",").
Qed.

Lemma skipsVal_Set_all vs : forall acc,
  foldl skipsVal_Set acc vs =
  (acc ++ ((fun v => list_to_set (splitComma "" v)) <$> vs))%list.
Proof.
  induction vs as [|v vs IH]; intros acc; cbn [foldl fmap list_fmap].
  - by rewrite app_nil_r.
  - rewrite IH. unfold skipsVal_Set. by rewrite <- app_assoc.
Qed.

(** X14.  The [i]-th [-skip] flag gives the [i]-th skip set, and the set
    holds exactly the parts of the value between its commas, taken as they
    are: no part contains a comma, and the parts joined by commas give the
    value back (so nothing is trimmed, and an empty value gives the set
    of the empty selector). *)
Theorem X14_skip_flag_is_split_at_commas vs :
  foldl skipsVal_Set [] vs = (fun v => list_to_set (splitComma "" v)) <$> vs
  /\ forall v,
       String.concat "," (splitComma "" v) = v
       /\ Forall (fun part => hasChar "," part = false) (splitComma "" v).
Proof.
  split; [by rewrite skipsVal_Set_all|].
  intros v. split; [by rewrite splitComma_join | by apply splitComma_parts].
Qed.

Lemma parseOutput_last w vs : forall v f serial,
  Forall (fun u => isDash u = true \/ os_OpenFile w u = true) (vs ++ [v]) ->
  exists evs,
    parseOutput w f serial (vs ++ [v]) =
      (if isDash v then mkOutputVal None "stdout"
       else mkOutputVal (Some (OsFile (serial + length vs) v)) v, evs, None).
Proof.
  induction vs as [|u vs IH]; intros v f serial Hall.
  - cbn [app] in Hall. rewrite Forall_singleton in Hall.
    cbn [app parseOutput length]. rewrite Nat.add_0_r.
    unfold outputVal_Set, isDash in *.
    destruct (String.eqb v "-" || String.eqb v ""); [by eexists|].
    destruct Hall as [Hd|Ho]; [done|]. rewrite Ho. by eexists.
  - rewrite <- app_comm_cons in *. apply Forall_cons in Hall as [Hu Hall].
    cbn [parseOutput length]. unfold outputVal_Set at 1. unfold isDash in Hu.
    destruct (String.eqb u "-" || String.eqb u "").
    + destruct (IH v (mkOutputVal None "stdout") (S serial) Hall) as [evs ->].
      replace (S serial + length vs) with (serial + S (length vs)) by lia. by eexists.
    + destruct Hu as [Hd|Ho]; [done|]. rewrite Ho.
      destruct (IH v (mkOutputVal (Some (OsFile serial u)) u) (S serial) Hall) as [evs ->].
      replace (S serial + length vs) with (serial + S (length vs)) by lia. by eexists.
Qed.

(** X15.  The last [-o] flag decides the destination: when every file
    named by an [-o] flag can be opened, the value left after parsing is
    standard output if the last value is [-] or empty, and otherwise the
    file the last flag opened, under the name given there; the flags
    before it have no part in it. *)
Theorem X15_last_output_flag_wins w vs v f serial :
  Forall (fun u => isDash u = true \/ os_OpenFile w u = true) (vs ++ [v]) ->
  fst (fst (parseOutput w f serial (vs ++ [v]))) =
    (if isDash v then mkOutputVal None "stdout"
     else mkOutputVal (Some (OsFile (serial + length vs) v)) v)
  /\ snd (parseOutput w f serial (vs ++ [v])) = None.
Proof.
  intros Hall. destruct (parseOutput_last w vs v f serial Hall) as [evs ->]. done.
Qed.

(** X15 at [-o a.go -o - -o b.go]. *)
Lemma X15_last_output_flag_wins_witness :
  fst (fst (parseOutput (exampleWorld true) (mkOutputVal None "") 0 ["a.go"; "-"; "b.go"])) =
    mkOutputVal (Some (OsFile 2 "b.go")) "b.go".
Proof.
  apply (X15_last_output_flag_wins (exampleWorld true) ["a.go"; "-"] "b.go"
           (mkOutputVal None "") 0).
  repeat constructor; by auto.
Defined.

Lemma parseOutput_opens w us : forall f serial,
  Forall (fun u => isDash u = false /\ os_OpenFile w u = true) us ->
  snd (fst (parseOutput w f serial us)) =
    imap (fun i u => OpenFile u (Some (OsFile (serial + i) u))) us.
Proof.
  induction us as [|u us IH]; intros f serial Hall; [done|].
  apply Forall_cons in Hall as [[Hu Ho] Hall].
  cbn [parseOutput imap]. unfold outputVal_Set. unfold isDash in Hu. rewrite Hu, Ho.
  specialize (IH (mkOutputVal (Some (OsFile serial u)) u) (S serial) Hall).
  destruct (parseOutput w _ (S serial) us) as [[f'' evs'] err]. cbn [fst snd] in *.
  rewrite IH, Nat.add_0_r. cbn [app]. f_equal.
  apply imap_ext. intros i x _. cbn. do 3 f_equal. lia.
Qed.

(** X16.  A file opened by an [-o] flag that is not the last one stays
    open: when every [-o] flag names a file that can be opened, [main]
    opens each of them, in the order of the flags, and the only file it
    ever closes is the one the last flag opened. *)
Theorem X16_earlier_output_files_stay_open w fuel cl vs v trace :
  cl_o cl = (vs ++ [v])%list ->
  Forall (fun u => isDash u = false /\ os_OpenFile w u = true) (vs ++ [v]) ->
  main w fuel cl = Some trace ->
  (forall i u, (vs ++ [v])%list !! i = Some u -> OpenFile u (Some (OsFile i u)) ∈ trace)
  /\ (forall f, Close f ∈ trace -> f = OsFile (length vs) v).
Proof.
  intros Ho Hall Hmain.
  pose proof (parseOutput_opens w _ (mkOutputVal None "") 0 Hall) as Hevs.
  assert (Hall' : Forall (fun u => isDash u = true \/ os_OpenFile w u = true) (vs ++ [v])).
  { eapply Forall_impl; [exact Hall|]. intros u [_ Hu]. by right. }
  destruct (parseOutput_last w vs v (mkOutputVal None "") 0 Hall') as [evs Hparse].
  rewrite Hparse in Hevs. cbn [fst snd] in Hevs.
  assert (Hv : isDash v = false).
  { apply Forall_app in Hall as [_ Hv]. by apply Forall_singleton in Hv as [Hv _]. }
  rewrite Hv in Hparse. cbn [Nat.add] in Hparse.
  assert (Hopened : forall i u, (vs ++ [v])%list !! i = Some u ->
                      OpenFile u (Some (OsFile i u)) ∈ evs).
  { intros i u Hi. rewrite Hevs. apply list_elem_of_lookup. exists i.
    rewrite list_lookup_imap, Hi. reflexivity. }
  assert (Hquiet : forall f, Close f ∈ evs -> False).
  { intros f. rewrite Hevs. intros (i & Hi)%list_elem_of_lookup.
    rewrite list_lookup_imap in Hi. by destruct ((vs ++ [v])%list !! i). }
  assert (Hsplit : forall tail,
            trace = (evs ++ tail)%list ->
            (forall f, Close f ∈ tail -> f = OsFile (length vs) v) ->
            (forall i u, (vs ++ [v])%list !! i = Some u ->
                         OpenFile u (Some (OsFile i u)) ∈ trace)
            /\ (forall f, Close f ∈ trace -> f = OsFile (length vs) v)).
  { intros tail -> Htail. split.
    - intros i u Hi. apply elem_of_app. left. by apply Hopened.
    - intros f [Hin|Hin]%elem_of_app; [by destruct (Hquiet f)|by apply Htail]. }
  unfold main in Hmain. rewrite Ho, Hparse in Hmain.
  destruct (bool_decide _ || _).
  { injection Hmain as <-. eapply Hsplit; [reflexivity|].
    intros f Hin. unfold fatal in Hin.
    by repeat (apply elem_of_cons in Hin as [Hin|Hin]; [discriminate Hin|]);
       apply elem_of_nil in Hin. }
  destruct (negb _).
  { injection Hmain as <-. eapply Hsplit; [reflexivity|].
    intros f Hin. unfold fatal in Hin.
    by repeat (apply elem_of_cons in Hin as [Hin|Hin]; [discriminate Hin|]);
       apply elem_of_nil in Hin. }
  destruct (run w fuel _ _ _ _) as [[b|err]|]; cbn [mbind option_bind] in Hmain; [| |done].
  - unfold outputVal_Open in Hmain. cbn [ov_file] in Hmain.
    destruct (file_Truncate w _).
    + destruct (file_Write w _ b); injection Hmain as <-;
        (eapply Hsplit; [reflexivity|]); intros f Hin; unfold fatal in Hin; cbn [app] in Hin;
        repeat (apply elem_of_cons in Hin as [Hin|Hin];
                [first [discriminate Hin | by injection Hin as ->]|]);
        by apply elem_of_nil in Hin.
    + injection Hmain as <-. eapply Hsplit; [reflexivity|].
      intros f Hin. unfold fatal in Hin. cbn [app] in Hin.
      by repeat (apply elem_of_cons in Hin as [Hin|Hin]; [discriminate Hin|]);
         apply elem_of_nil in Hin.
  - injection Hmain as <-. eapply Hsplit; [reflexivity|].
    intros f Hin. unfold fatal in Hin. cbn [app] in Hin.
    by repeat (apply elem_of_cons in Hin as [Hin|Hin]; [discriminate Hin|]);
       apply elem_of_nil in Hin.
Qed.

(** X16 at [-o a.go -o b.go -type Plain ./p]: [a.go] is opened and only
    [b.go] is closed. *)
Lemma X16_earlier_output_files_stay_open_witness :
  exists trace,
    main (exampleWorld true) 3 (mkCommandLine false ["Plain"] [] ["a.go"; "b.go"] ["./p"]) =
      Some trace
    /\ OpenFile "a.go" (Some (OsFile 0 "a.go")) ∈ trace
    /\ (forall f, Close f ∈ trace -> f = OsFile 1 "b.go").
Proof.
  destruct (main (exampleWorld true) 3
              (mkCommandLine false ["Plain"] [] ["a.go"; "b.go"] ["./p"]))
    as [trace|] eqn:E; [|vm_compute in E; discriminate E].
  exists trace. split; [reflexivity|].
  destruct (X16_earlier_output_files_stay_open (exampleWorld true) 3
              (mkCommandLine false ["Plain"] [] ["a.go"; "b.go"] ["./p"]) ["a.go"] "b.go" trace
              eq_refl ltac:(repeat constructor) E) as [Hopen Hclose].
  split; [exact (Hopen 0 "a.go" eq_refl) | exact Hclose].
Defined.

(** ** Element kinds and aliases *)

(** [getElemType] finds the object of a type through [reducePointer],
    which reduces every type with an element: a slice, an array, a channel
    or a map of a named type is named as that named type. *)
Lemma getElemType_container tm t d x imports rawkind :
  asPointer t = Some (Named d) ->
  isPointerType t = false ->
  getElemType tm t x imports rawkind = getElemType tm (Named d) x imports rawkind.
Proof.
  intros He Hp. unfold getElemType, objFromType, reducePointer. rewrite He, Hp.
  reflexivity.
Qed.

(** X17.  The allocation printed for a slice whose elements are slices,
    arrays, channels or maps of a named type is that of a slice of the
    named type itself: the element kind is the name of the object found
    through [reducePointer], without the brackets of the element type, and
    the import table is left as for the named type. *)
Theorem X17_container_named_as_its_element
    tm fuel source sink x m t d imports skips G initial out imports' :
  Underlying tm m = Slice t ->
  asPointer t = Some (Named d) ->
  isPointerType t = false ->
  reusedAt tm m G initial = false ->
  walkType tm fuel source sink x m imports skips G initial = Some (out, imports') ->
  exists rest,
    out = sliceAlloc source sink (fst (getElemType tm (Named d) x imports false)) +:+ rest.
Proof.
  intros HU He Hp Hno. destruct fuel as [|fuel]; [done|].
  cbn [walkType]. rewrite (check_falls_through _ _ _ _ _ _ Hno), HU.
  rewrite (getElemType_container _ _ _ _ _ _ He Hp).
  destruct (getElemType tm (Named d) x imports false) as [kind i1]. cbn [fst].
  destruct (if bool_decide _ then _ else _) as [[b i2]|]; [|done].
  cbn [mbind option_bind]. intros [= <- _]. by eexists.
Qed.

(** X17 at a slice of slices of [A], as the type of a field [F]: the
    allocation is printed with the kind [A]. *)
Lemma X17_container_named_as_its_element_witness :
  exists out imports' rest,
    walkType exampleTypes 4 "o.F" "cp.F" "p" (Slice (Slice (Named 0))) ∅ ∅ [Named 0] false =
      Some (out, imports')
    /\ out = sliceAlloc "o.F" "cp.F" "A" +:+ rest.
Proof.
  destruct (walkType exampleTypes 4 "o.F" "cp.F" "p" (Slice (Slice (Named 0))) ∅ ∅
              [Named 0] false) as [[out imports']|] eqn:E; [|vm_compute in E; discriminate E].
  destruct (X17_container_named_as_its_element exampleTypes 4 "o.F" "cp.F" "p"
              (Slice (Slice (Named 0))) (Slice (Named 0)) 0 ∅ ∅ [Named 0] false out imports'
              eq_refl eq_refl eq_refl eq_refl E) as [rest Hrest].
  by exists out, imports', rest.
Defined.

Lemma hasChar_replaceChar c old new s :
  c <> new ->
  hasChar c (replaceChar old new s) = hasChar c s && negb (Ascii.eqb c old).
Proof.
  intros Hnew. unfold replaceChar. induction s as [|d s IH]; [done|].
  cbn [mapChars hasChar]. rewrite IH.
  destruct (Ascii.eqb_spec d old) as [->|Hd].
  - destruct (Ascii.eqb_spec new c) as [|_]; [by subst|].
    destruct (Ascii.eqb_spec old c) as [->|Hc]; cbn [orb]; [|done].
    rewrite Ascii.eqb_refl. by destruct (hasChar c s).
  - destruct (Ascii.eqb_spec d c) as [->|Hc]; cbn [orb]; [|done].
    destruct (Ascii.eqb_spec c old) as [->|_]; [done|]. by destruct (hasChar c s).
Qed.

(** X18.  The alias of a package whose name is taken by another path is
    its path with the slashes, and nothing else, replaced: the alias has no
    slash, and every character other than the slash and the underscore
    occurs in the alias exactly when it occurs in the path.  A dot of the
    path is a dot of the alias. *)
Theorem X18_flattened_alias_keeps_the_rest imports pkg path :
  imports !! pkg_name pkg = Some path ->
  path <> pkg_path pkg ->
  hasChar "/" (aliasFor imports pkg) = false
  /\ forall c, c <> "/"%char -> c <> "_"%char ->
       hasChar c (aliasFor imports pkg) = hasChar c (pkg_path pkg).
Proof.
  intros Hname Hpath. rewrite (aliasFor_collision _ _ _ Hname Hpath). split.
  - rewrite hasChar_replaceChar by done. cbn. by rewrite andb_false_r.
  - intros c Hslash Hunder. rewrite hasChar_replaceChar by done.
    destruct (Ascii.eqb_spec c "/"); [done|]. by rewrite andb_true_r.
Qed.

(** X18 at the package [example.com/time] when [time] is bound to the
    standard package: the alias has the dot of the path. *)
Lemma X18_flattened_alias_keeps_the_rest_witness :
  aliasFor {["time" := "time"]} (mkPkg "time" "example.com/time") = "example.com_time"
  /\ hasChar "." (aliasFor {["time" := "time"]} (mkPkg "time" "example.com/time")) = true.
Proof.
  split; [reflexivity|].
  assert (Hbound : ({["time" := "time"]} : gmap string string)
                     !! pkg_name (mkPkg "time" "example.com/time") = Some "time")
    by reflexivity.
  assert (Hother : "time" <> pkg_path (mkPkg "time" "example.com/time")) by discriminate.
  destruct (X18_flattened_alias_keeps_the_rest _ _ _ Hbound Hother) as [_ H].
  rewrite H by discriminate. reflexivity.
Defined.

(** ** Skipping every field *)

Lemma walkFields_all_skipped walk needExported source sink skips fields imports :
  hasChar "." sink = false ->
  Forall (fun f => var_name f ∈ skips) fields ->
  walkFields walk needExported source sink skips fields imports = Some ("", imports).
Proof.
  intros Hsink. induction 1 as [|field rest Hin _ IH]; [done|]. cbn [walkFields].
  rewrite (afterFirstDot_flat _ _ Hsink), (bool_decide_eq_true_2 _ Hin), IH.
  by destruct (needExported && negb (var_exported field)).
Qed.

(** X19.  Skipping every field of a requested struct type by its name
    gives the shallow copy: the method is the header followed by the
    footer, nothing below the struct is visited (one unit of fuel is
    enough), and the import table is left as it was, whatever the types of
    the fields. *)
Theorem X19_all_fields_skipped_is_shallow tm fuel p obj fields imports skips pointer G :
  tm_underlying tm obj = Struct fields ->
  Forall (fun f => var_name f ∈ skips) fields ->
  generateFunc tm (S fuel) p obj imports skips pointer G =
    Some (methodHeader pointer (obj_name (tm_obj tm obj)) "o" +:+ methodFooter pointer,
          imports).
Proof.
  intros HU Hfields. unfold generateFunc.
  cbn [walkType isMethoder negb andb Underlying]. rewrite HU.
  by rewrite (walkFields_all_skipped _ _ _ "cp" _ _ _ eq_refl Hfields).
Qed.

(** X19 at [-type Event -skip At,Seen]: no import of either package
    [time]. *)
Lemma X19_all_fields_skipped_is_shallow_witness :
  generateFunc exampleTypes 1 examplePackage 11 ∅ {["At"; "Seen"]} false [Named 11] =
    Some (methodHeader false "Event" "o" +:+ methodFooter false, ∅).
Proof.
  apply (X19_all_fields_skipped_is_shallow exampleTypes 0 examplePackage 11
           [mkVar "At" true (Slice (Named 9)); mkVar "Seen" true (Slice (Named 10))]
           ∅ {["At"; "Seen"]} false [Named 11] eq_refl).
  repeat constructor; cbn [var_name]; set_solver.
Defined.

(** ** The braces of the generated text *)

Lemma braces_app a b : braces (a +:+ b) = (braces a + braces b)%Z.
Proof.
  induction a as [|c a IH]; [done|].
  change (braces (String c (a +:+ b)) = (braces (String c a) + braces b)%Z).
  cbn [braces]. rewrite IH. lia.
Qed.

Lemma braces_mapChars f s :
  (forall c, Ascii.eqb (f c) "{" = Ascii.eqb c "{" /\ Ascii.eqb (f c) "}" = Ascii.eqb c "}") ->
  braces (mapChars f s) = braces s.
Proof.
  intros Hf. induction s as [|c s IH]; [done|]. cbn [mapChars braces].
  destruct (Hf c) as [-> ->]. by rewrite IH.
Qed.

Lemma braces_removeChar old s :
  Ascii.eqb old "{" = false -> Ascii.eqb old "}" = false ->
  braces (removeChar old s) = braces s.
Proof.
  intros Ho Hc. induction s as [|c s IH]; [done|]. cbn [removeChar braces].
  destruct (Ascii.eqb_spec c old) as [->|_]; [|cbn [braces]]; rewrite IH; [|done].
  by rewrite Ho, Hc.
Qed.

Lemma braces_selToIdent s : braces (selToIdent s) = braces s.
Proof.
  unfold selToIdent. rewrite braces_mapChars, braces_removeChar; [done..|].
  intros c. destruct (Ascii.eqb_spec c "[") as [->|_]; [done|].
  by destruct (Ascii.eqb_spec c ".") as [->|_].
Qed.

Lemma braces_flattened s : braces (replaceChar "/" "_" s) = braces s.
Proof.
  unfold replaceChar. apply braces_mapChars.
  intros c. by destruct (Ascii.eqb_spec c "/") as [->|_].
Qed.

Lemma braces_ifNotNil s : braces (ifNotNil s) = (braces s + 1)%Z.
Proof. unfold ifNotNil. count_braces braces_app. lia. Qed.

Lemma balanced_braces s : balanced s = true -> braces s = 0%Z.
Proof. unfold balanced. lia. Qed.

Lemma braces_sliceLoop source b :
  braces source = 0%Z -> braces (sliceLoop source b) = braces b.
Proof.
  intros Hs. unfold sliceLoop, closeBrace. destruct b as [|c b]; [done|].
  cbn [nonEmpty]. count_braces braces_app. lia.
Qed.

Lemma braces_reuseDeepCopy tm source sink v p G :
  braces source = 0%Z -> braces sink = 0%Z ->
  braces (fst (reuseDeepCopy tm source sink v p G)) = 0%Z.
Proof.
  intros Hso Hsi. unfold reuseDeepCopy, callDirect, callWrap, callDeref.
  destruct (hasDeepCopy tm v G p) as [[|] isP]; [|done].
  destruct (Bool.eqb p isP), p; cbn [fst]; count_braces braces_app; lia.
Qed.

Lemma wellNamed_text tm t :
  wellNamed tm t = true -> objFromType t = None -> braces (tm_string tm t) = 0%Z.
Proof.
  intros H Hobj. apply balanced_braces.
  destruct t; cbn [wellNamed] in H; try done;
    by apply andb_true_iff in H as [H _].
Qed.

Section Braces.
Context (tm : TypeModel).
Hypothesis declared : forall d, declaredWellNamed tm d = true.

Lemma declared_name d : braces (obj_name (tm_obj tm d)) = 0%Z.
Proof.
  specialize (declared d). unfold declaredWellNamed in declared.
  apply andb_true_iff in declared as [[H _]%andb_true_iff _]. by apply balanced_braces.
Qed.

Lemma declared_package d pkg :
  obj_pkg (tm_obj tm d) = Some pkg ->
  braces (pkg_name pkg) = 0%Z /\ braces (pkg_path pkg) = 0%Z.
Proof.
  intros Hpkg. specialize (declared d). unfold declaredWellNamed in declared.
  rewrite Hpkg in declared.
  apply andb_true_iff in declared as [[_ [H1 H2]%andb_true_iff]%andb_true_iff _].
  split; by apply balanced_braces.
Qed.

Lemma wellNamed_Underlying m : wellNamed tm m = true -> wellNamed tm (Underlying tm m) = true.
Proof.
  destruct m; try done. intros _. cbn [Underlying].
  specialize (declared decl). unfold declaredWellNamed in declared.
  by apply andb_true_iff in declared as [_ H].
Qed.

Lemma braces_aliasFor imports d pkg :
  obj_pkg (tm_obj tm d) = Some pkg -> braces (aliasFor imports pkg) = 0%Z.
Proof.
  intros [Hname Hpath]%declared_package.
  destruct (aliasFor_cases imports pkg) as [-> | ->]; [done|]. by rewrite braces_flattened.
Qed.

Lemma braces_getElemType t x imports rawkind :
  wellNamed tm t = true -> braces (fst (getElemType tm t x imports rawkind)) = 0%Z.
Proof.
  intros Ht. unfold getElemType.
  assert (Hstar : forall (kind : string) (b : bool), braces kind = 0%Z ->
                    braces (if b then "*" +:+ kind else kind) = 0%Z).
  { intros kind [|] Hk; [|done]. count_braces braces_app. lia. }
  destruct (objFromType t) as [obj|] eqn:Eobj.
  - pose proof (declared_name obj) as Hname.
    destruct (obj_pkg (tm_obj tm obj)) as [pkg|] eqn:Epkg; [|by apply Hstar].
    destruct (negb (String.eqb (pkg_name pkg) x)); [|by apply Hstar].
    apply Hstar. count_braces braces_app. rewrite (braces_aliasFor _ _ _ Epkg). lia.
  - apply Hstar. by apply wellNamed_text.
Qed.

Lemma walkFields_balanced walk needExported source sink skips fields :
  (forall so si t i out i',
     braces so = 0%Z -> braces si = 0%Z -> wellNamed tm t = true ->
     walk so si t i = Some (out, i') -> braces out = 0%Z) ->
  braces source = 0%Z -> braces sink = 0%Z ->
  forallb (fun f : Var type => balanced (var_name f) && wellNamed tm (var_type f)) fields
    = true ->
  forall imports out imports',
    walkFields walk needExported source sink skips fields imports = Some (out, imports') ->
    braces out = 0%Z.
Proof.
  intros Hwalk Hso Hsi. induction fields as [|field rest IH]; intros Hfields imports out imports';
    cbn [walkFields].
  - by intros [= <- _].
  - cbn [forallb] in Hfields.
    apply andb_true_iff in Hfields as [[Hname Htype]%andb_true_iff Hrest].
    apply balanced_braces in Hname.
    destruct (needExported && negb (var_exported field)); [by apply IH|].
    destruct (bool_decide _); [by apply IH|].
    destruct (walk _ _ _ imports) as [[o1 i1]|] eqn:E1; [|done]. cbn [mbind option_bind].
    destruct (walkFields walk _ _ _ _ rest i1) as [[o2 i2]|] eqn:E2; [|done].
    cbn [mbind option_bind]. intros [= <- _]. rewrite braces_app.
    rewrite (IH Hrest _ _ _ E2).
    assert (Hso' : braces (source +:+ "." +:+ var_name field) = 0%Z)
      by (count_braces braces_app; lia).
    assert (Hsi' : braces (sink +:+ "." +:+ var_name field) = 0%Z)
      by (count_braces braces_app; lia).
    by rewrite (Hwalk _ _ _ _ _ _ Hso' Hsi' Htype E1).
Qed.

Lemma walkType_balanced fuel : forall source sink x m imports skips G initial out imports',
  braces source = 0%Z -> braces sink = 0%Z -> wellNamed tm m = true ->
  walkType tm fuel source sink x m imports skips G initial = Some (out, imports') ->
  braces out = 0%Z.
Proof.
  induction fuel as [|fuel IH];
    intros source sink x m imports skips G initial out imports' Hso Hsi Hm; [done|].
  cbn [walkType].
  destruct (if isMethoder m && negb initial then _ else _) as [call reused] eqn:Er.
  assert (Hcall : braces call = 0%Z).
  { destruct (isMethoder m && negb initial); [|by injection Er as <- _].
    pose proof (braces_reuseDeepCopy tm source sink m false G Hso Hsi) as H.
    by rewrite Er in H. }
  destruct reused; [by intros [= <- _]|]. clear call Er Hcall.
  apply wellNamed_Underlying in Hm.
  destruct (Underlying tm m) as [| |elem|elem| |d elem|key elem|fields| |];
    try (by intros [= <- _]); cbn [wellNamed] in Hm;
    apply andb_true_iff in Hm as [_ Hm].
  - (* pointer *)
    destruct (if isMethoder elem && negb initial then _ else _) as [call reused] eqn:Er.
    assert (Hcall : braces call = 0%Z).
    { destruct (isMethoder elem && negb initial); [|by injection Er as <- _].
      pose proof (braces_reuseDeepCopy tm source sink elem true G Hso Hsi) as H.
      by rewrite Er in H. }
    destruct reused.
    { intros [= <- _]. unfold closeBrace. rewrite !braces_app, braces_ifNotNil.
      count_braces braces_app. lia. }
    pose proof (braces_getElemType elem x imports true Hm) as Hkind.
    destruct (getElemType tm elem x imports true) as [kind i1]. cbn [fst] in Hkind.
    destruct (walkType tm fuel _ _ _ elem i1 _ _ _) as [[o1 i2]|] eqn:E; [|done].
    cbn [mbind option_bind]. intros [= <- _].
    pose proof (IH _ _ _ _ _ _ _ _ _ _ Hso Hsi Hm E) as Ho1.
    unfold closeBrace, pointerAlloc. rewrite !braces_app, braces_ifNotNil.
    count_braces braces_app. lia.
  - (* slice *)
    pose proof (braces_getElemType elem x imports false Hm) as Hkind.
    destruct (getElemType tm elem x imports false) as [kind i1]. cbn [fst] in Hkind.
    assert (Hb : forall b i2,
              (if bool_decide (elemSelector sink initial "[i]" ∈ skips)
               then Some ("", i1)
               else walkType tm fuel (source +:+ "[i]") (sink +:+ "[i]") x elem i1 skips G
                             false) = Some (b, i2) -> braces b = 0%Z).
    { intros b i2. destruct (bool_decide _); [by intros [= <- _]|].
      assert (Hso' : braces (source +:+ "[i]") = 0%Z) by (count_braces braces_app; lia).
      assert (Hsi' : braces (sink +:+ "[i]") = 0%Z) by (count_braces braces_app; lia).
      by apply IH. }
    destruct (if bool_decide _ then _ else _) as [[b i2]|]; [|done].
    cbn [mbind option_bind]. intros [= <- _]. specialize (Hb b i2 eq_refl).
    unfold closeBrace, sliceAlloc. rewrite !braces_app, braces_sliceLoop, braces_ifNotNil by done.
    count_braces braces_app. lia.
  - (* channel *)
    pose proof (braces_getElemType elem x imports false Hm) as Hkind.
    destruct (getElemType tm elem x imports false) as [kind i1]. cbn [fst] in Hkind.
    intros [= <- _]. unfold closeBrace, chanAlloc. rewrite !braces_app, braces_ifNotNil.
    count_braces braces_app. lia.
  - (* map *)
    apply andb_true_iff in Hm as [Hkey Helem].
    pose proof (braces_getElemType key x imports false Hkey) as Hkkind.
    destruct (getElemType tm key x imports false) as [kkind i1]. cbn [fst] in Hkkind.
    pose proof (braces_getElemType elem x i1 false Helem) as Hvkind.
    destruct (getElemType tm elem x i1 false) as [vkind i2]. cbn [fst] in Hvkind.
    assert (Hident : forall suffix, braces suffix = 0%Z ->
                       braces (selToIdent sink +:+ suffix) = 0%Z).
    { intros suffix Hs. rewrite braces_app, braces_selToIdent. lia. }
    assert (Htemp : forall copySink kind b,
              braces copySink = 0%Z -> braces kind = 0%Z -> braces b = 0%Z ->
              forall bound, braces bound = 0%Z ->
              let '(s, o) := if nonEmpty b then (copySink, varDecl copySink kind +:+ b)
                             else (bound, "") in
              braces s = 0%Z /\ braces o = 0%Z).
    { intros copySink kind b Hc Hk Hb bound Hbound. destruct (nonEmpty b); [|done].
      split; [done|]. unfold varDecl. count_braces braces_app. lia. }
    destruct (bool_decide _); cbn [mbind option_bind].
    + intros [= <- _]. unfold mapAlloc, mapStore, closeBrace.
      rewrite !braces_app, braces_ifNotNil. count_braces braces_app. lia.
    + destruct (walkType tm fuel _ _ _ key i2 _ _ _) as [[kb i3]|] eqn:Ek; [|done].
      cbn [mbind option_bind].
      assert (Hk0 : braces "k" = 0%Z) by reflexivity.
      assert (Hv0 : braces "v" = 0%Z) by reflexivity.
      pose proof (Hident "_k" eq_refl) as Hkname.
      pose proof (Hident "_v" eq_refl) as Hvname.
      pose proof (IH _ _ _ _ _ _ _ _ _ _ Hk0 Hkname Hkey Ek) as Hkb.
      pose proof (Htemp _ kkind kb Hkname Hkkind Hkb "k" Hk0) as Hk.
      destruct (if nonEmpty kb then _ else _) as [ksink kout]. destruct Hk as [Hksink Hkout].
      destruct (walkType tm fuel _ _ _ elem i3 _ _ _) as [[vb i4]|] eqn:Ev; [|done].
      cbn [mbind option_bind].
      pose proof (IH _ _ _ _ _ _ _ _ _ _ Hv0 Hvname Helem Ev) as Hvb.
      pose proof (Htemp _ vkind vb Hvname Hvkind Hvb "v" Hv0) as Hv.
      destruct (if nonEmpty vb then _ else _) as [vsink vout]. destruct Hv as [Hvsink Hvout].
      intros [= <- _]. unfold mapAlloc, mapStore, closeBrace.
      rewrite !braces_app, braces_ifNotNil. count_braces braces_app. lia.
  - (* struct *)
    intros Hw. eapply walkFields_balanced; [|exact Hso|exact Hsi|exact Hm|exact Hw].
    intros so si t i o i' Hso' Hsi' Ht Hwalk. cbv beta in Hwalk.
    exact (IH _ _ _ _ _ _ _ _ _ _ Hso' Hsi' Ht Hwalk).
Qed.
End Braces.

(** X20.  The text of a generated method has as many opening as closing
    braces, provided the names the text is made of have: the names of the
    declared types, the names and paths of their packages, the names of the
    fields, and the texts the library prints for the unnamed types inside
    them. *)
Theorem X20_method_braces_balance tm fuel p obj imports skips pointer G out imports' :
  (forall d, declaredWellNamed tm d = true) ->
  generateFunc tm fuel p obj imports skips pointer G = Some (out, imports') ->
  braces out = 0%Z.
Proof.
  intros Hdecl. unfold generateFunc.
  destruct (walkType tm fuel _ _ _ _ imports _ G true) as [[body i1]|] eqn:E; [|done].
  cbn [mbind option_bind]. intros [= <- _].
  assert (Hbody : braces body = 0%Z).
  { eapply (walkType_balanced tm Hdecl); [| | |exact E]; done. }
  pose proof (declared_name tm Hdecl obj) as Hname.
  unfold methodHeader, methodFooter.
  destruct pointer; count_braces braces_app; lia.
Qed.

(** X20 at [-type Holder], whose field is a map from [*int] to [*int]. *)
Lemma X20_method_braces_balance_witness :
  exists out imports',
    generateFunc exampleTypes 5 examplePackage 8 ∅ ∅ false [Named 8] = Some (out, imports')
    /\ braces out = 0%Z.
Proof.
  destruct (generateFunc exampleTypes 5 examplePackage 8 ∅ ∅ false [Named 8])
    as [[out imports']|] eqn:E; [|vm_compute in E; discriminate E].
  exists out, imports'. split; [reflexivity|].
  apply (X20_method_braces_balance exampleTypes 5 examplePackage 8 ∅ ∅ false [Named 8]
           out imports'); [|exact E].
  intros d. do 17 (destruct d as [|d]; [vm_compute; reflexivity|]). vm_compute. reflexivity.
Defined.

(** ** More on selectors and on the output flag *)

Lemma afterFirstDot_none s : hasChar "." s = false -> afterFirstDot s = s.
Proof.
  unfold afterFirstDot. intros Hs.
  assert (H : dropToDot s = None); [|by rewrite H].
  induction s as [|c s IH]; [done|]. cbn [hasChar dropToDot] in *.
  apply orb_false_iff in Hs as [-> Hs]. by apply IH.
Qed.

(** X21.  Below the top level, the selector of the elements of a slice or
    of the entries of a map that is itself a key or a value of a map
    carries the name of the temporary: the sink has no dot, [Index] finds
    none, and the whole text is the selector.  Under the same sink the
    selector of a field is the bare name of the field. *)
Theorem X21_element_selector_under_temporary sink suffix index :
  hasChar "." suffix = false ->
  hasChar "." index = false ->
  elemSelector (selToIdent sink +:+ suffix) false index = selToIdent sink +:+ suffix +:+ index.
Proof.
  intros Hsuffix Hindex. unfold elemSelector. rewrite append_assoc.
  apply afterFirstDot_none.
  rewrite !hasChar_app, Hsuffix, Hindex, selToIdent_flat; [done | by auto].
Qed.

(** X21 at the values of the map [cp.M], themselves slices: their
    elements are skipped by the selector [cp_M_v[i]]. *)
Lemma X21_element_selector_under_temporary_witness :
  elemSelector (selToIdent "cp.M" +:+ "_v") false "[i]" = "cp_M_v[i]".
Proof.
  rewrite (X21_element_selector_under_temporary "cp.M" "_v" "[i]" eq_refl eq_refl).
  reflexivity.
Defined.

Lemma parseOutput_fails w vs : forall v rest f serial,
  Forall (fun u => isDash u = true \/ os_OpenFile w u = true) vs ->
  isDash v = false -> os_OpenFile w v = false ->
  snd (fst (parseOutput w f serial (vs ++ v :: rest))) =
    (snd (fst (parseOutput w f serial vs)) ++ [OpenFile v None])%list
  /\ snd (parseOutput w f serial (vs ++ v :: rest)) =
       Some (invalidValue v "o" ("opening file: " +:+ v)).
Proof.
  induction vs as [|u vs IH]; intros v rest f serial Hall Hv Ho.
  - cbn [app parseOutput]. unfold outputVal_Set. unfold isDash in Hv. by rewrite Hv, Ho.
  - apply Forall_cons in Hall as [Hu Hall]. rewrite <- app_comm_cons. cbn [parseOutput].
    assert (Hset : snd (outputVal_Set w f u serial) = None).
    { unfold outputVal_Set. unfold isDash in Hu.
      destruct (String.eqb u "-" || String.eqb u ""); [done|].
      destruct Hu as [Hu|Hu]; [done|]. by rewrite Hu. }
    destruct (outputVal_Set w f u serial) as [[f' evs] err]. cbn [snd] in Hset. subst err.
    destruct (IH v rest f' (S serial) Hall Hv Ho) as [Hevs Herr].
    destruct (parseOutput w f' (S serial) (vs ++ v :: rest)) as [[f1 evs1] err1].
    destruct (parseOutput w f' (S serial) vs) as [[f2 evs2] err2].
    cbn [fst snd] in *. subst evs1 err1. by rewrite app_assoc.
Qed.

(** X22.  An [-o] flag whose file cannot be opened stops the program
    while the command line is parsed: the trace is what the flags before
    it did, the failed opening, and the exit with status 2 and the error
    of [flag.Parse], which quotes the value as [%q] does.  The flags after
    it are not looked at and no type is located or walked (no fuel is
    needed).  When the flags before it all name files, what they did is to
    open them, one after the other: none of these files is closed.  The
    value is a text of ASCII characters. *)
Theorem X22_unopenable_output_stops_parsing w fuel cl vs v rest :
  cl_o cl = (vs ++ v :: rest)%list ->
  Forall (fun u => isDash u = true \/ os_OpenFile w u = true) vs ->
  isDash v = false ->
  os_OpenFile w v = false ->
  isASCII v = true ->
  main w fuel cl =
    Some (snd (fst (parseOutput w (mkOutputVal None "") 0 vs)) ++
          [OpenFile v None;
           Exit 2 ("invalid value " +:+ quoted v +:+ " for flag -o: opening file: " +:+ v)])%list
  /\ (Forall (fun u => isDash u = false) vs ->
      snd (fst (parseOutput w (mkOutputVal None "") 0 vs)) =
        imap (fun i u => OpenFile u (Some (OsFile i u))) vs).
Proof.
  intros Ho Hall Hv Hopen _. split.
  - unfold main. rewrite Ho.
    destruct (parseOutput_fails w vs v rest (mkOutputVal None "") 0 Hall Hv Hopen)
      as [Hevs Herr].
    destruct (parseOutput w _ 0 (vs ++ v :: rest)) as [[f evs] err]. cbn [fst snd] in *.
    subst evs err. by rewrite <- app_assoc.
  - intros Hfiles. apply (parseOutput_opens w vs (mkOutputVal None "") 0).
    apply Forall_forall. intros u Hu.
    pose proof (proj1 (Forall_forall _ _) Hfiles u Hu) as Hfile.
    destruct (proj1 (Forall_forall _ _) Hall u Hu) as [Hdash|Hopens]; [congruence|done].
Qed.

(** X22 at [-o a.go -o /none/b.go -o c.go] in a world without the
    directory [/none]: [a.go] is left open, [c.go] is never opened. *)
Lemma X22_unopenable_output_stops_parsing_witness :
  main (mkWorld ["deep-copy"] exampleTypes (packages_Load (exampleWorld true))
                (format_Source (exampleWorld true)) map_to_list
                (fun name => negb (String.eqb name "/none/b.go"))
                (fun _ => true) (fun _ _ => true))
       0 (mkCommandLine false ["A"] [] ["a.go"; "/none/b.go"; "c.go"] ["./p"]) =
    Some [OpenFile "a.go" (Some (OsFile 0 "a.go")); OpenFile "/none/b.go" None;
          Exit 2 ("invalid value " +:+ dquote +:+ "/none/b.go" +:+ dquote +:+
                  " for flag -o: opening file: /none/b.go")].
Proof.
  set (w := mkWorld _ _ _ _ _ _ _ _).
  assert (Hall : Forall (fun u => isDash u = true \/ os_OpenFile w u = true) ["a.go"]).
  { constructor; [by right | constructor]. }
  rewrite (proj1 (X22_unopenable_output_stops_parsing w 0
             (mkCommandLine false ["A"] [] ["a.go"; "/none/b.go"; "c.go"] ["./p"])
             ["a.go"] "/none/b.go" ["c.go"] eq_refl Hall eq_refl eq_refl eq_refl)).
  reflexivity.
Defined.

(** ** The text of an element type without an object *)

(** X23.  The allocation printed for a slice whose element type is not a
    pointer and has no object behind it (a basic type, a struct, function
    or interface type written in place, or a slice, array, channel or map
    of a type that is not named) carries the text the library prints for
    that type, as it is: whatever named types occur inside it are written
    the way [Type.String] writes them, with the path of their package, and
    not under the aliases of [getElemType]. *)
Theorem X23_unnamed_element_is_printed_by_the_library
    tm fuel source sink x m t imports skips G initial out imports' :
  Underlying tm m = Slice t ->
  objFromType t = None ->
  isPointerType t = false ->
  reusedAt tm m G initial = false ->
  walkType tm fuel source sink x m imports skips G initial = Some (out, imports') ->
  exists rest, out = sliceAlloc source sink (tm_string tm t) +:+ rest.
Proof.
  intros HU Hobj Hp Hno. destruct fuel as [|fuel]; [done|].
  cbn [walkType]. rewrite (check_falls_through _ _ _ _ _ _ Hno), HU.
  unfold getElemType. rewrite Hobj, Hp. cbn [negb andb].
  destruct (if bool_decide _ then _ else _) as [[b i2]|]; [|done].
  cbn [mbind option_bind]. intros [= <- _]. by eexists.
Qed.

(** X23 at a field [L] of type [[]struct{X *B}] in package [p], [A] and
    [B] being generated together: the element type is printed with the
    path of [p] before [B]. *)
Lemma X23_unnamed_element_is_printed_by_the_library_witness :
  exists out imports' rest,
    walkType exampleTypes 4 "o.L" "cp.L" "p"
             (Slice (Struct [mkVar "X" true (Pointer (Named 1))])) ∅ ∅
             [Named 0; Named 1] false = Some (out, imports')
    /\ out = "if o.L != nil {" +:+ nl +:+
             tab +:+ "cp.L = make([]struct{X *example.com/p.B}, len(o.L))" +:+ nl +:+
             "copy(cp.L, o.L)" +:+ nl +:+ rest.
Proof.
  destruct (walkType exampleTypes 4 "o.L" "cp.L" "p"
              (Slice (Struct [mkVar "X" true (Pointer (Named 1))])) ∅ ∅
              [Named 0; Named 1] false) as [[out imports']|] eqn:E;
    [|vm_compute in E; discriminate E].
  destruct (X23_unnamed_element_is_printed_by_the_library exampleTypes 4 "o.L" "cp.L" "p"
              (Slice (Struct [mkVar "X" true (Pointer (Named 1))]))
              (Struct [mkVar "X" true (Pointer (Named 1))]) ∅ ∅ [Named 0; Named 1] false
              out imports' eq_refl eq_refl eq_refl eq_refl E) as [rest Hrest].
  exists out, imports', rest. split; [reflexivity|]. rewrite Hrest.
  vm_compute. reflexivity.
Defined.
